(** * Smart resume analyser: the backend's matching, ranking, extraction and
      AI-gateway logic (server.js), embedded in Rocq.

    JavaScript strings are sequences of UTF-16 code units, numbers are IEEE-754
    binary64 values, plain objects used as dictionaries are finite maps.  The
    runtime's built-ins that the handlers call ([String.prototype.trim],
    [split], [includes], the two regular-expression replacements, [Math.round],
    [Array.prototype.sort], [Buffer.prototype.toString]) are written out as
    executable functions; [String.prototype.toLowerCase] (full Unicode case
    mapping), [JSON.parse] and the two document parsers are taken as section
    variables, with executable instances for the concrete examples. *)

From Stdlib Require Import ZArith NArith Lia Ascii String.
From Stdlib Require Import Floats.SpecFloat.
From stdpp Require Import base option list sorting gmap.

Local Open Scope N_scope.

(* ===================================================================== *)
(** * JavaScript strings *)
(* ===================================================================== *)

Module Js.

(** A string is the list of its UTF-16 code units. *)
Definition jsstring := list N.

(** A literal of the source, read code unit by code unit (the literals of
    server.js are ASCII, so bytes and code units coincide). *)
Fixpoint js (s : string) : jsstring :=
  match s with
  | EmptyString => []
  | String a r => N_of_ascii a :: js r
  end.

Definition space : N := 32.
Definition comma : N := 44.
Definition dquote : N := 34.

Definition isLower (c : N) : bool := (97 <=? c) && (c <=? 122).
Definition isUpper (c : N) : bool := (65 <=? c) && (c <=? 90).
Definition isDigit (c : N) : bool := (48 <=? c) && (c <=? 57).
Definition isAscii (c : N) : bool := c <? 128.

(** The class [\s] of a regular expression without the [u] flag, which is
    also the set [String.prototype.trim] strips: WhiteSpace and
    LineTerminator of ECMA-262. *)
Definition isWhiteSpace (c : N) : bool :=
  ((0x09 <=? c) && (c <=? 0x0D)) || (c =? 0x20) || (c =? 0xA0)
  || (c =? 0x1680) || ((0x2000 <=? c) && (c <=? 0x200A))
  || (c =? 0x2028) || (c =? 0x2029) || (c =? 0x202F) || (c =? 0x205F)
  || (c =? 0x3000) || (c =? 0xFEFF).

Fixpoint dropWhile (p : N -> bool) (s : jsstring) : jsstring :=
  match s with
  | [] => []
  | c :: r => if p c then dropWhile p r else s
  end.

Definition trimStart (s : jsstring) : jsstring := dropWhile isWhiteSpace s.
Definition trimEnd (s : jsstring) : jsstring :=
  reverse (dropWhile isWhiteSpace (reverse s)).

(** [s.trim()] *)
Definition trim (s : jsstring) : jsstring := trimEnd (trimStart s).

(** [s.split(sep)] for a one-unit separator: never the empty array. *)
Fixpoint split (sep : N) (s : jsstring) : list jsstring :=
  match s with
  | [] => [[]]
  | c :: r =>
      if c =? sep then [] :: split sep r
      else match split sep r with
           | tok :: toks => (c :: tok) :: toks
           | [] => [[c]]
           end
  end.

Fixpoint startsWith (s p : jsstring) : bool :=
  match p, s with
  | [], _ => true
  | _ :: _, [] => false
  | a :: p', b :: s' => (a =? b) && startsWith s' p'
  end.

(** [s.includes(p)]: [p] occurs in [s] as a contiguous run of code units. *)
Fixpoint includes (s p : jsstring) : bool :=
  startsWith s p
  || match s with
     | [] => false
     | _ :: r => includes r p
     end.

(** [s.replace(/[^a-z0-9\s,]/g, ' ')] *)
Definition keptByNormalize (c : N) : bool :=
  isLower c || isDigit c || isWhiteSpace c || (c =? comma).
Definition replaceSymbols (s : jsstring) : jsstring :=
  map (fun c => if keptByNormalize c then c else space) s.

(** [s.replace(/\s+/g, ' ')]: every maximal run of white space becomes one
    space; [inRun] tells that the previous unit was white space. *)
Fixpoint collapseFrom (inRun : bool) (s : jsstring) : jsstring :=
  match s with
  | [] => []
  | c :: r =>
      if isWhiteSpace c
      then (if inRun then collapseFrom true r else space :: collapseFrom true r)
      else c :: collapseFrom false r
  end.
Definition collapseWhiteSpace (s : jsstring) : jsstring := collapseFrom false s.

(** [toLowerCase] on ASCII: what the built-in does to a string all of whose
    code units are below 128. *)
Definition lowerAscii (c : N) : N := if isUpper c then c + 32 else c.
Definition toLowerCaseAscii (s : jsstring) : jsstring := map lowerAscii s.

(** [a.join(sep)] *)
Fixpoint join (sep : jsstring) (l : list jsstring) : jsstring :=
  match l with
  | [] => []
  | [x] => x
  | x :: r => x ++ sep ++ join sep r
  end.

End Js.
Export Js.

(* ===================================================================== *)
(** * JavaScript numbers: binary64 *)
(* ===================================================================== *)

Module Num.
Local Open Scope Z_scope.

Definition f64 := spec_float.
Definition prec : Z := 53.
Definition emax : Z := 1024.

(** The Number for an array length. *)
Definition ofNat (n : nat) : f64 := binary_normalize prec emax (Z.of_nat n) 0 false.
Definition ofZ (z : Z) : f64 := binary_normalize prec emax z 0 false.
Definition div (x y : f64) : f64 := SFdiv prec emax x y.
Definition mul (x y : f64) : f64 := SFmul prec emax x y.

(** [Math.round]: the integer nearest to [x], a tie going towards +infinity,
    that is floor(x + 1/2) computed exactly.  NaN and the infinities do not
    arise from the quotient of two lengths with a positive divisor; they are
    sent to 0 here. *)
Definition Math_round (x : f64) : Z :=
  match x with
  | S754_finite s m e =>
      let v := if s then Z.neg m else Z.pos m in
      if 0 <=? e then v * 2 ^ e
      else (2 * v + 2 ^ (- e)) / 2 ^ (1 - e)
  | _ => 0
  end.

(** Rounding half up of the exact quotient [100 * m / n], for comparison. *)
Definition roundHalfUpPercent (m n : nat) : Z :=
  (200 * Z.of_nat m + Z.of_nat n) / (2 * Z.of_nat n).
End Num.

(* ===================================================================== *)
(** * The skill matcher: matchResumeToJob *)
(* ===================================================================== *)

Record MatchResult := {
  matchScore : Z;
  matchedSkills : list jsstring;
  missingSkills : list jsstring
}.

Section Matcher.
(** [String.prototype.toLowerCase]. *)
Variable toLowerCase : jsstring -> jsstring.

(** const normalize = (text) =>
      text.toLowerCase().replace(/[^a-z0-9\s,]/g, ' ').replace(/\s+/g, ' ').trim(); *)
Definition normalize (text : jsstring) : jsstring :=
  trim (collapseWhiteSpace (replaceSymbols (toLowerCase text))).

(** jobSkillsString.toLowerCase().split(',').map(skill => skill.trim())
      .filter(skill => skill.length > 0) *)
Definition parseSkills (jobSkillsString : jsstring) : list jsstring :=
  filter (fun skill => (0 < length skill)%nat)
         (map trim (split comma (toLowerCase jobSkillsString))).

(** One iteration of the [forEach] body: push on one of the two arrays. *)
Definition classify (normalizedResume : jsstring)
    (acc : list jsstring * list jsstring) (skill : jsstring)
    : list jsstring * list jsstring :=
  if includes normalizedResume skill
  then (acc.1 ++ [skill], acc.2)
  else (acc.1, acc.2 ++ [skill]).

(** Math.round((matchedSkills.length / requiredSkills.length) * 100) *)
Definition percent (matched required : nat) : Z :=
  Num.Math_round (Num.mul (Num.div (Num.ofNat matched) (Num.ofNat required))
                          (Num.ofZ 100)).

Definition matchResumeToJob (resumeText jobSkillsString : jsstring) : MatchResult :=
  let normalizedResume := normalize resumeText in
  let requiredSkills := parseSkills jobSkillsString in
  if decide (length requiredSkills = 0%nat)
  then {| matchScore := 100; matchedSkills := []; missingSkills := [] |}
  else
    let r := fold_left (classify normalizedResume) requiredSkills ([], []) in
    {| matchScore := percent (length r.1) (length requiredSkills);
       matchedSkills := r.1;
       missingSkills := r.2 |}.
End Matcher.

(* ===================================================================== *)
(** * Handlers: effects, storage and responses *)
(* ===================================================================== *)

(** What a handler does besides answering: it invokes the matcher and it posts
    to the generative-language service.  Both are recorded in a log, in order,
    so that "before any match is computed" and "the collaborator is invoked
    zero times" are statements about the log. *)
Inductive Event :=
| MatchInvoked (resumeText : option jsstring) (jobSkills : jsstring)
| GeminiPosted (systemPrompt userQuery : jsstring).

(** What a [try] block can catch. *)
Inductive Exn :=
| TypeError
| Error (message : jsstring).

Module Eff.

(** A computation reads and extends the log, and ends in a value or in a
    thrown exception. *)
Definition M (A : Type) : Type := list Event -> (Exn + A) * list Event.

Definition ret {A} (a : A) : M A := fun log => (inr a, log).
Definition throw {A} (e : Exn) : M A := fun log => (inl e, log).
Definition emit (ev : Event) : M unit := fun log => (inr tt, log ++ [ev]).
Definition bind {A B} (m : M A) (k : A -> M B) : M B :=
  fun log =>
    match m log with
    | (inl e, log') => (inl e, log')
    | (inr a, log') => k a log'
    end.
(** try { m } catch (e) { handler e } *)
Definition tryCatch {A} (m : M A) (handler : Exn -> M A) : M A :=
  fun log =>
    match m log with
    | (inl e, log') => handler e log'
    | (inr a, log') => (inr a, log')
    end.
(** A handler never lets an exception escape: its [catch] answers. *)
Definition run {A} (m : M A) : (Exn + A) * list Event := m [].

End Eff.

#[global] Instance eff_ret : MRet Eff.M := @Eff.ret.
#[global] Instance eff_bind : MBind Eff.M := fun A B k m => Eff.bind m k.

(** ** Documents of the three collections *)

Record JobDoc := {
  title : jsstring;
  company : jsstring;
  description : jsstring;
  skills : jsstring;
  recruiterId : jsstring
}.

(** [resumeText] is [None] when the stored document has no such field. *)
Record ResumeDoc := {
  resumeText : option jsstring;
  filePath : jsstring
}.

Record UserDoc := {
  email : jsstring;
  role : jsstring
}.

(** A collection is the sequence of its documents (id, data) in the order a
    snapshot lists them. *)
Record Db := {
  jobs : list (jsstring * JobDoc);
  resumes : list (jsstring * ResumeDoc);
  users : list (jsstring * UserDoc)
}.

(** db.collection(c).doc(id).get(): [None] when [!doc.exists]. *)
Fixpoint getDoc {A} (docs : list (jsstring * A)) (id : jsstring) : option A :=
  match docs with
  | [] => None
  | (i, d) :: rest => if decide (i = id) then Some d else getDoc rest id
  end.

(** !resumeDoc.exists || !resumeDoc.data().resumeText *)
Definition storedResumeText (db : Db) (uid : jsstring) : option jsstring :=
  match getDoc (resumes db) uid with
  | None => None
  | Some d =>
      match resumeText d with
      | None => None
      | Some [] => None
      | Some t => Some t
      end
  end.

(** ** Responses *)

(** An entry of the ranking: { userId, email, matchScore, matchedSkills }. *)
Record Applicant := {
  userId : jsstring;
  applicantEmail : jsstring;
  applicantScore : Z;
  applicantSkills : list jsstring
}.

(** The values [JSON.parse] produces; a number keeps its lexeme. *)
#[warnings="-register-all"]
Inductive Json :=
| JNull
| JBool (b : bool)
| JNumber (lexeme : jsstring)
| JString (s : jsstring)
| JArray (items : list Json)
| JObject (fields : list (jsstring * Json)).

Inductive Body :=
| Message (message : jsstring)
| MatchBody (result : MatchResult)
| ApplicantsBody (applicants : list Applicant)
| TextBody (text : jsstring)
| SuggestionsBody (suggestions : list Json).

Record Response := { status : Z; body : Body }.

Definition send (code : Z) (b : Body) : Response := {| status := code; body := b |}.

(* ===================================================================== *)
(** * Array.prototype.sort *)
(* ===================================================================== *)

(** [a.sort(compareFn)] orders the elements so that [compareFn x y <= 0] for
    [x] before [y], and is stable (ECMA-262 since ES2019): elements that
    compare equal keep their order.  For a consistent comparator this fixes the
    result; it is computed here by insertion from the right. *)
Section Sort.
Context {A : Type}.
Variable compareFn : A -> A -> Z.

Fixpoint insertSorted (x : A) (l : list A) : list A :=
  match l with
  | [] => [x]
  | y :: r => if (compareFn x y <=? 0)%Z then x :: l else y :: insertSorted x r
  end.

Definition Array_sort (l : list A) : list A := foldr insertSorted [] l.
End Sort.

(* ===================================================================== *)
(** * Matching and ranking endpoints *)
(* ===================================================================== *)

Section Ranking.
Variable toLowerCase : jsstring -> jsstring.

(** A call [matchResumeToJob(resumeText, jobSkills)] from a handler:
    [text.toLowerCase()] throws a TypeError when the text is undefined. *)
Definition callMatch (text : option jsstring) (jobSkills : jsstring) : Eff.M MatchResult :=
  _ ← Eff.emit (MatchInvoked text jobSkills);
  match text with
  | None => Eff.throw TypeError
  | Some t => mret (matchResumeToJob toLowerCase t jobSkills)
  end.

Definition jobNotFound : Response := send 404 (Message (js "Job not found.")).
Definition resumeNotFound : Response :=
  send 404 (Message (js "Resume not found for this user.")).

(** app.get('/api/match/:jobId/:userId') *)
Definition matchHandler (db : Db) (jobId uid : jsstring) : Eff.M Response :=
  Eff.tryCatch
    (match getDoc (jobs db) jobId with
     | None => mret jobNotFound
     | Some job =>
         let jobSkills := skills job in
         match storedResumeText db uid with
         | None => mret resumeNotFound
         | Some text =>
             result ← callMatch (Some text) jobSkills;
             mret (send 200 (MatchBody result))
         end
     end)
    (fun _ => mret (send 500 (Message (js "Internal server error during match analysis.")))).

(** usersSnapshot.docs.reduce((acc, doc) => { acc[doc.id] = doc.data(); return acc; }, {})

    The object is read only through [usersMap[userId]] followed by the test of
    [role]: a key inherited from Object.prototype has no such role, so it
    fares as a missing key does, and the object is a finite map. *)
Definition buildUsersMap (docs : list (jsstring * UserDoc)) : gmap jsstring UserDoc :=
  fold_left (fun acc doc => <[doc.1 := doc.2]> acc) docs ∅.

(** userDetails && userDetails.role === 'Job Seeker' *)
Definition eligible (usersMap : gmap jsstring UserDoc) (uid : jsstring) : option UserDoc :=
  match usersMap !! uid with
  | Some userDetails =>
      if decide (role userDetails = js "Job Seeker") then Some userDetails else None
  | None => None
  end.

(** The body of [for (const resumeDoc of resumesSnapshot.docs)], threading
    [applicantsList]. *)
Fixpoint scoreResumes (usersMap : gmap jsstring UserDoc) (jobSkills : jsstring)
    (docs : list (jsstring * ResumeDoc)) (applicantsList : list Applicant)
    : Eff.M (list Applicant) :=
  match docs with
  | [] => mret applicantsList
  | (uid, resumeDoc) :: rest =>
      match eligible usersMap uid with
      | Some userDetails =>
          matchResult ← callMatch (resumeText resumeDoc) jobSkills;
          scoreResumes usersMap jobSkills rest
            (applicantsList ++
               [{| userId := uid;
                   applicantEmail := email userDetails;
                   applicantScore := matchScore matchResult;
                   applicantSkills := matchedSkills matchResult |}])
      | None => scoreResumes usersMap jobSkills rest applicantsList
      end
  end.

(** (a, b) => b.matchScore - a.matchScore *)
Definition byScoreDesc (a b : Applicant) : Z := (applicantScore b - applicantScore a)%Z.

(** app.get('/api/applicants/:jobId') *)
Definition applicantsHandler (db : Db) (jobId : jsstring) : Eff.M Response :=
  Eff.tryCatch
    (match getDoc (jobs db) jobId with
     | None => mret jobNotFound
     | Some job =>
         let jobSkills := skills job in
         let usersMap := buildUsersMap (users db) in
         applicantsList ← scoreResumes usersMap jobSkills (resumes db) [];
         mret (send 200 (ApplicantsBody (Array_sort byScoreDesc applicantsList)))
     end)
    (fun _ => mret (send 500 (Message (js "Internal server error during applicant ranking.")))).
End Ranking.

(* ===================================================================== *)
(** * Document extraction: the upload endpoint *)
(* ===================================================================== *)

Module Utf8.

(** What a lead byte starts: a code point of its own (an ASCII byte, or U+FFFD
    for a byte that can start nothing), or a sequence with [needed]
    continuation bytes, the bits read so far and the bounds of the next byte. *)
Definition lead (b : N) : N + (nat * N * N * N) :=
  if b <=? 0x7F then inl b
  else if (0xC2 <=? b) && (b <=? 0xDF) then inr (1%nat, N.land b 0x1F, 0x80, 0xBF)
  else if (0xE0 <=? b) && (b <=? 0xEF) then
    inr (2%nat, N.land b 0x0F,
         if b =? 0xE0 then 0xA0 else 0x80,
         if b =? 0xED then 0x9F else 0xBF)
  else if (0xF0 <=? b) && (b <=? 0xF4) then
    inr (3%nat, N.land b 0x07,
         if b =? 0xF0 then 0x90 else 0x80,
         if b =? 0xF4 then 0x8F else 0xBF)
  else inl 0xFFFD.

(** The decoder of the Encoding Standard, as [Buffer.prototype.toString]
    applies it: an ill-formed sequence yields U+FFFD and the offending byte is
    read again as a lead byte. *)
Fixpoint codePoints (needed : nat) (cp lo hi : N) (bytes : list N) : list N :=
  match bytes with
  | [] => match needed with O => [] | S _ => [0xFFFD] end
  | b :: rest =>
      let start :=
        match lead b with
        | inl c => c :: codePoints 0 0 0x80 0xBF rest
        | inr (n, c, l, h) => codePoints n c l h rest
        end in
      match needed with
      | O => start
      | S k =>
          if (lo <=? b) && (b <=? hi) then
            let cp' := cp * 64 + N.land b 0x3F in
            match k with
            | O => cp' :: codePoints 0 0 0x80 0xBF rest
            | S _ => codePoints k cp' 0x80 0xBF rest
            end
          else 0xFFFD :: start
      end
  end.

(** A code point as UTF-16 code units. *)
Definition units (cp : N) : list N :=
  if cp <? 0x10000 then [cp]
  else [0xD800 + (cp - 0x10000) / 0x400; 0xDC00 + (cp - 0x10000) mod 0x400].

(** dataBuffer.toString('utf-8') *)
Definition decode (bytes : list Byte.byte) : jsstring :=
  concat (map units (codePoints 0 0 0x80 0xBF (map Byte.to_N bytes))).

End Utf8.

(** The bytes of a literal payload, and a payload given by its byte values. *)
Definition bytesOf (s : string) : list Byte.byte := list_byte_of_string s.
Definition bytesOfN (l : list N) : list Byte.byte := omap Byte.of_N l.

(** How the [try] block of the upload can fail: the two errors it throws
    itself, and a rejection by one of the parsers (with that error's message). *)
Inductive ExtractError :=
| UnsupportedFileType
| CouldNotExtractText
| ParserRejected (message : jsstring).

Inductive Extraction :=
| Extracted (text : jsstring)
| Failed (e : ExtractError).



(** [error.message] *)
Definition errorMessage (e : ExtractError) : jsstring :=
  match e with
  | UnsupportedFileType => js "Unsupported file type. Please use PDF, DOCX, or TXT."
  | CouldNotExtractText =>
      js "Could not extract text from the document. Please ensure the file is not corrupted."
  | ParserRejected m => m
  end.

Section Extractor.
(** The two parsers of the packages pdf-parse and mammoth: the text they
    resolve to ([inr]), or the message of the error they reject with ([inl]). *)
Variable pdf : list Byte.byte -> jsstring + jsstring.
Variable mammoth_extractRawText : list Byte.byte -> jsstring + jsstring.

Definition mimePdf : jsstring := js "application/pdf".
Definition mimeDocx : jsstring :=
  js "application/vnd.openxmlformats-officedocument.wordprocessingml.document".
Definition mimeTxt : jsstring := js "text/plain".

(** The conditional parsing of the [try] block, up to the check of
    [resumeText.trim()]. *)
Definition extractText (dataBuffer : list Byte.byte) (fileMimeType : jsstring) : Extraction :=
  let parsed : ExtractError + jsstring :=
    if decide (fileMimeType = mimePdf) then
      match pdf dataBuffer with
      | inr text => inr text
      | inl m => inl (ParserRejected m)
      end
    else if decide (fileMimeType = mimeDocx) then
      match mammoth_extractRawText dataBuffer with
      | inr text => inr text
      | inl m => inl (ParserRejected m)
      end
    else if decide (fileMimeType = mimeTxt) then inr (Utf8.decode dataBuffer)
    else inl UnsupportedFileType in
  match parsed with
  | inl e => Failed e
  | inr resumeText =>
      match trim resumeText with
      | [] => Failed CouldNotExtractText
      | _ :: _ => Extracted resumeText
      end
  end.

(** The multipart request: [req.body.userId] and [req.file] (path, declared
    media type, content). *)
Record UploadRequest := {
  upUserId : option jsstring;
  upFile : option (jsstring * jsstring * list Byte.byte)
}.

(** docRef.set({...}, { merge: true }): the candidate's document is replaced by
    the new text and path, or created. *)
Definition setResume (docs : list (jsstring * ResumeDoc)) (uid : jsstring) (doc : ResumeDoc)
    : list (jsstring * ResumeDoc) :=
  match getDoc docs uid with
  | Some _ => map (fun d => if decide (d.1 = uid) then (d.1, doc) else d) docs
  | None => docs ++ [(uid, doc)]
  end.

(** app.post('/api/resumes/upload'): the response, the store afterwards and
    the path removed by [fs.unlinkSync], if any. *)
Definition uploadHandler (db : Db) (req : UploadRequest)
    : Response * Db * option jsstring :=
  match upUserId req, upFile req with
  | Some (u :: id), Some (path, mimetype, dataBuffer) =>
      match extractText dataBuffer mimetype with
      | Extracted text =>
          let doc := {| resumeText := Some text; filePath := path |} in
          (send 200 (Message (js "Resume uploaded and processed successfully.")),
           {| jobs := jobs db; resumes := setResume (resumes db) (u :: id) doc; users := users db |},
           None)
      | Failed e =>
          (send 500 (Message (js "Processing failed: " ++ errorMessage e)), db, Some path)
      end
  | _, _ => (send 400 (Message (js "User ID or file is missing.")), db, None)
  end.
End Extractor.

(* ===================================================================== *)
(** * The AI content gateway *)
(* ===================================================================== *)

(** What the POST to the generative-language API comes to: the [fetch] (or
    [response.json()]) rejects, or the body is read and
    [result.candidates?.[0]?.content?.parts?.[0]?.text] is a string or
    undefined. *)
Inductive GeminiReply :=
| FetchRejected
| Replied (text : option jsstring).

(** process.env *)
Record Env := { GEMINI_API_KEY : jsstring; CANVAS_MODE : bool }.

Record JobItem := { itemId : jsstring; itemTitle : jsstring; itemSkills : jsstring }.

(** [req.body] of the three AI endpoints; a field is [None] when absent. *)
Record AiRequest := {
  reqUserId : option jsstring;
  reqJobTitle : option jsstring;
  reqJobDescription : option jsstring;
  reqCompany : option jsstring;
  reqAllJobs : option (list JobItem)
}.

(** A value inside a template literal. *)
Definition interpolate (v : option jsstring) : jsstring :=
  match v with
  | Some s => s
  | None => js "undefined"
  end.

Definition quoted (s : jsstring) : jsstring := dquote :: s ++ [dquote].

Section Gateway.
Variable JSON_parse : jsstring -> option Json.
Variable fetchGemini : jsstring -> jsstring -> GeminiReply.
Variable env : Env.

Definition generateGeminiContent (systemPrompt userQuery : jsstring) : Eff.M jsstring :=
  if bool_decide (GEMINI_API_KEY env = []) && negb (CANVAS_MODE env)
  then Eff.throw (Error (js "GEMINI_API_KEY is not set."))
  else
    _ ← Eff.emit (GeminiPosted systemPrompt userQuery);
    match fetchGemini systemPrompt userQuery with
    | FetchRejected => Eff.throw (Error (js "fetch failed"))
    | Replied None | Replied (Some []) =>
        Eff.throw (Error (js "Gemini returned no text content or encountered an API error."))
    | Replied (Some text) => mret text
    end.

Definition userIdRequired : Response := send 400 (Message (js "User ID is required.")).

Definition coverLetterResumeRequired : Response :=
  send 404 (Message (js "Please upload your resume first to generate a cover letter.")).
Definition suggestionsResumeRequired : Response :=
  send 404 (Message (js "Please upload your resume first for personalized recommendations.")).
Definition interviewResumeRequired : Response :=
  send 404 (Message (js "Please upload your resume first to generate interview questions.")).

Definition coverLetterSystemPrompt : jsstring :=
  js "You are a professional career coach and copywriter. Your task is to generate a concise, single-page cover letter based on the provided resume and job details. Focus only on the most relevant experience and skills that match the job description.".

Definition coverLetterUserQuery (req : AiRequest) (resumeText : jsstring) : jsstring :=
  js "Using the following resume text, write a cover letter for the job titled "
  ++ quoted (interpolate (reqJobTitle req)) ++ js " at "
  ++ quoted (interpolate (reqCompany req)) ++ js ". The job description is: "
  ++ quoted (interpolate (reqJobDescription req)) ++ js ". Resume Text: "
  ++ quoted resumeText
  ++ js ". Only return the body of the letter, starting with the salutation and ending with the closing.".

(** app.post('/api/ai/coverletter') *)
Definition coverLetterHandler (db : Db) (req : AiRequest) : Eff.M Response :=
  match reqUserId req with
  | None | Some [] => mret userIdRequired
  | Some uid =>
      Eff.tryCatch
        (match storedResumeText db uid with
         | None => mret coverLetterResumeRequired
         | Some resumeText =>
             letterText ← generateGeminiContent coverLetterSystemPrompt
                            (coverLetterUserQuery req resumeText);
             mret (send 200 (TextBody letterText))
         end)
        (fun _ => mret (send 500 (Message (js "Failed to generate cover letter via AI."))))
  end.

Definition interviewSystemPrompt : jsstring :=
  js "You are an expert HR interviewer. Your task is to generate 5 challenging and specific behavioral interview questions (using the STAR method format) that are tailored to the candidate's resume and the job requirements. Format the output as a numbered list of questions, with no introductory text.".

Definition interviewUserQuery (req : AiRequest) (resumeText : jsstring) : jsstring :=
  js "Generate 5 behavioral interview questions for the job titled "
  ++ quoted (interpolate (reqJobTitle req)) ++ js ". The job description is: "
  ++ quoted (interpolate (reqJobDescription req))
  ++ js ". The candidate's Resume Text is: " ++ quoted resumeText ++ js ".".

(** app.post('/api/ai/interview') *)
Definition interviewHandler (db : Db) (req : AiRequest) : Eff.M Response :=
  match reqUserId req with
  | None | Some [] => mret userIdRequired
  | Some uid =>
      Eff.tryCatch
        (match storedResumeText db uid with
         | None => mret interviewResumeRequired
         | Some resumeText =>
             questionsText ← generateGeminiContent interviewSystemPrompt
                               (interviewUserQuery req resumeText);
             mret (send 200 (TextBody questionsText))
         end)
        (fun _ => mret (send 500 (Message (js "Failed to generate interview questions via AI."))))
  end.

Definition suggestionsSystemPrompt : jsstring :=
  js "You are a job recommendation engine. Analyze the Resume Text and the list of available jobs. Select the top 3 job IDs that are the *best semantic fit* for the candidate's experience. Return ONLY a JSON array of the recommended job IDs, using the format: ["
  ++ quoted (js "ID_1") ++ js ", " ++ quoted (js "ID_2") ++ js ", " ++ quoted (js "ID_3") ++ js "].".

Definition jobListString (allJobs : list JobItem) : jsstring :=
  join (js "; ")
    (map (fun job => js "ID: " ++ itemId job ++ js ", Title: " ++ itemTitle job
                     ++ js ", Skills: " ++ itemSkills job) allJobs).

Definition jobsRequired : Response :=
  send 400 (Message (js "User ID and available jobs are required.")).

(** try { recommendedIds = JSON.parse(jsonResponse.trim());
          if (!Array.isArray(recommendedIds)) throw ... }
    catch (e) { return res.status(200).send({ suggestions: [] }); } *)
Definition parseSuggestions (jsonResponse : jsstring) : list Json :=
  match JSON_parse (trim jsonResponse) with
  | Some (JArray recommendedIds) => recommendedIds
  | Some _ => []
  | None => []
  end.

Definition suggestionsUserQuery (resumeText : jsstring) (allJobs : list JobItem) : jsstring :=
  js "Candidate Resume Text: " ++ quoted resumeText
  ++ js ". Available Jobs (ID, Title, Skills): " ++ jobListString allJobs ++ js ".".

(** app.post('/api/ai/suggestions') *)
Definition suggestionsHandler (db : Db) (req : AiRequest) : Eff.M Response :=
  match reqUserId req, reqAllJobs req with
  | Some (u :: id), Some (job :: others) =>
      let uid := u :: id in
      let allJobs := job :: others in
      Eff.tryCatch
        (match storedResumeText db uid with
         | None => mret suggestionsResumeRequired
         | Some resumeText =>
             jsonResponse ← generateGeminiContent suggestionsSystemPrompt
                              (suggestionsUserQuery resumeText allJobs);
             mret (send 200 (SuggestionsBody (parseSuggestions jsonResponse)))
         end)
        (fun _ => mret (send 500 (Message (js "Failed to fetch suggestions via AI."))))
  | _, _ => mret jobsRequired
  end.
End Gateway.

(* ===================================================================== *)
(** * Executable instances of the runtime's built-ins *)
(* ===================================================================== *)

(** A reader of the JSON grammar (ECMA-404), used as the instance of
    [JSON.parse] on concrete texts. *)
Module JsonText.

Definition isJsonSpace (c : N) : bool :=
  (c =? 0x20) || (c =? 0x09) || (c =? 0x0A) || (c =? 0x0D).

Definition skipSpace (s : jsstring) : jsstring := dropWhile isJsonSpace s.

Definition hexValue (c : N) : option N :=
  if isDigit c then Some (c - 48)
  else if (97 <=? c) && (c <=? 102) then Some (c - 87)
  else if (65 <=? c) && (c <=? 70) then Some (c - 55)
  else None.

Definition hex4 (a b c d : N) : option N :=
  match hexValue a, hexValue b, hexValue c, hexValue d with
  | Some x, Some y, Some z, Some w => Some (((x * 16 + y) * 16 + z) * 16 + w)
  | _, _, _, _ => None
  end.

Definition escape (e : N) : option N :=
  if e =? 34 then Some 34 else if e =? 92 then Some 92 else if e =? 47 then Some 47
  else if e =? 98 then Some 8 else if e =? 102 then Some 12 else if e =? 110 then Some 10
  else if e =? 114 then Some 13 else if e =? 116 then Some 9 else None.

(** The characters of a string after its opening quote, and what follows the
    closing quote. *)
Fixpoint readString (s : jsstring) : option (jsstring * jsstring) :=
  match s with
  | [] => None
  | c :: r =>
      if c =? 34 then Some ([], r)
      else if c <? 32 then None
      else if c =? 92 then
        match r with
        | 117 :: h1 :: h2 :: h3 :: h4 :: r' =>
            match hex4 h1 h2 h3 h4, readString r' with
            | Some u, Some (t, rest) => Some (u :: t, rest)
            | _, _ => None
            end
        | e :: r' =>
            match escape e, readString r' with
            | Some u, Some (t, rest) => Some (u :: t, rest)
            | _, _ => None
            end
        | [] => None
        end
      else
        match readString r with
        | Some (t, rest) => Some (c :: t, rest)
        | None => None
        end
  end.

Fixpoint spanDigits (s : jsstring) : jsstring * jsstring :=
  match s with
  | c :: r => if isDigit c then let '(d, rest) := spanDigits r in (c :: d, rest) else ([], s)
  | [] => ([], [])
  end.

(** A number's lexeme: an optional minus, an integer part without a leading
    zero, an optional fraction, an optional exponent. *)
Definition readNumber (s : jsstring) : option (jsstring * jsstring) :=
  let '(sign, s1) := match s with 45 :: r => ([45], r) | _ => ([], s) end in
  let '(int, s2) := spanDigits s1 in
  match int with
  | [] => None
  | 48 :: _ :: _ => None
  | _ =>
      let frac :=
        match s2 with
        | 46 :: r =>
            let '(d, rest) := spanDigits r in
            match d with [] => None | _ => Some (46 :: d, rest) end
        | _ => Some ([], s2)
        end in
      match frac with
      | None => None
      | Some (fr, s3) =>
          let expo :=
            match s3 with
            | e :: r =>
                if (e =? 101) || (e =? 69) then
                  let '(sg, r1) :=
                    match r with
                    | c :: r' => if (c =? 43) || (c =? 45) then ([c], r') else ([], r)
                    | [] => ([], r)
                    end in
                  let '(d, rest) := spanDigits r1 in
                  match d with [] => None | _ => Some (e :: sg ++ d, rest) end
                else Some ([], s3)
            | [] => Some ([], s3)
            end in
          match expo with
          | None => None
          | Some (ex, s4) => Some (sign ++ int ++ fr ++ ex, s4)
          end
      end
  end.

Fixpoint readValue (fuel : nat) (s : jsstring) : option (Json * jsstring) :=
  match fuel with
  | O => None
  | S fuel' =>
      match skipSpace s with
      | 91 :: r =>
          match skipSpace r with
          | 93 :: r' => Some (JArray [], r')
          | _ =>
              match readItems fuel' r with
              | Some (items, rest) => Some (JArray items, rest)
              | None => None
              end
          end
      | 123 :: r =>
          match skipSpace r with
          | 125 :: r' => Some (JObject [], r')
          | _ =>
              match readFields fuel' r with
              | Some (fields, rest) => Some (JObject fields, rest)
              | None => None
              end
          end
      | 34 :: r =>
          match readString r with
          | Some (t, rest) => Some (JString t, rest)
          | None => None
          end
      | 116 :: 114 :: 117 :: 101 :: r => Some (JBool true, r)
      | 102 :: 97 :: 108 :: 115 :: 101 :: r => Some (JBool false, r)
      | 110 :: 117 :: 108 :: 108 :: r => Some (JNull, r)
      | s' =>
          match readNumber s' with
          | Some (lexeme, rest) => Some (JNumber lexeme, rest)
          | None => None
          end
      end
  end
with readItems (fuel : nat) (s : jsstring) : option (list Json * jsstring) :=
  match fuel with
  | O => None
  | S fuel' =>
      match readValue fuel' s with
      | Some (v, r) =>
          match skipSpace r with
          | 44 :: r' =>
              match readItems fuel' r' with
              | Some (vs, rest) => Some (v :: vs, rest)
              | None => None
              end
          | 93 :: r' => Some ([v], r')
          | _ => None
          end
      | None => None
      end
  end
with readFields (fuel : nat) (s : jsstring) : option (list (jsstring * Json) * jsstring) :=
  match fuel with
  | O => None
  | S fuel' =>
      match skipSpace s with
      | 34 :: r =>
          match readString r with
          | Some (key, r1) =>
              match skipSpace r1 with
              | 58 :: r2 =>
                  match readValue fuel' r2 with
                  | Some (v, r3) =>
                      match skipSpace r3 with
                      | 44 :: r4 =>
                          match readFields fuel' r4 with
                          | Some (fs, rest) => Some ((key, v) :: fs, rest)
                          | None => None
                          end
                      | 125 :: r4 => Some ([(key, v)], r4)
                      | _ => None
                      end
                  | None => None
                  end
              | _ => None
              end
          | None => None
          end
      | _ => None
      end
  end.

(** The whole text is one value; anything else is a SyntaxError ([None]).
    Every recursive call follows the reading of a character, so twice the
    length bounds the depth. *)
Definition parse (text : jsstring) : option Json :=
  match readValue (2 * length text + 2) text with
  | Some (v, rest) => match skipSpace rest with [] => Some v | _ => None end
  | None => None
  end.

End JsonText.

(* ===================================================================== *)
(** * Specification-level notions and the data of the examples *)
(* ===================================================================== *)

(** [p] occurs in [s] as a contiguous run. *)
Definition substringOf (p s : jsstring) : Prop := ∃ pre post, s = pre ++ p ++ post.



(** What the built-in is known to do: on a string of ASCII units it lowers the
    letters A-Z and nothing else, and its result holds no unit in A-Z. *)
Definition lowersAscii (toLowerCase : jsstring -> jsstring) : Prop :=
  ∀ s, forallb isAscii s = true → toLowerCase s = toLowerCaseAscii s.

(** The resume documents of the eligible candidates, in snapshot order. *)
Definition eligibleResumes (usersMap : gmap jsstring UserDoc)
    (docs : list (jsstring * ResumeDoc)) : list (jsstring * ResumeDoc) :=
  filter (fun d => is_Some (eligible usersMap d.1)) docs.

(** The entry of the ranking for a resume document: none for a candidate who
    is not eligible or whose document has no text. *)
Definition entryOf (toLowerCase : jsstring -> jsstring) (usersMap : gmap jsstring UserDoc)
    (jobSkills : jsstring) (d : jsstring * ResumeDoc) : option Applicant :=
  match eligible usersMap d.1, resumeText d.2 with
  | Some userDetails, Some text =>
      let r := matchResumeToJob toLowerCase text jobSkills in
      Some {| userId := d.1;
              applicantEmail := email userDetails;
              applicantScore := matchScore r;
              applicantSkills := matchedSkills r |}
  | _, _ => None
  end.

(** The store without the resumes of candidates who are not eligible. *)
Definition onlyEligible (db : Db) : Db :=
  {| jobs := jobs db;
     resumes := eligibleResumes (buildUsersMap (users db)) (resumes db);
     users := users db |}.

(** A store for the examples: one job; five resumes, of which u3 belongs to a
    recruiter (and has no text) and u4 to nobody known. *)
Definition exampleDb : Db :=
  {| jobs := [(js "j1", {| title := js "Developer"; company := js "Acme";
                           description := js "Web development";
                           skills := js "React, Node"; recruiterId := js "r1" |})];
     resumes := [(js "u1", {| resumeText := Some (js "I use React"); filePath := js "uploads/u1-1.txt" |});
                 (js "u2", {| resumeText := Some (js "Node and React"); filePath := js "uploads/u2-1.pdf" |});
                 (js "u3", {| resumeText := None; filePath := js "uploads/u3-1.pdf" |});
                 (js "u4", {| resumeText := Some (js "React, Node"); filePath := js "uploads/u4-1.pdf" |});
                 (js "u5", {| resumeText := Some (js "node.js"); filePath := js "uploads/u5-1.txt" |})];
     users := [(js "u1", {| email := js "u1@example.org"; role := js "Job Seeker" |});
               (js "u2", {| email := js "u2@example.org"; role := js "Job Seeker" |});
               (js "u3", {| email := js "u3@example.org"; role := js "Recruiter" |});
               (js "u5", {| email := js "u5@example.org"; role := js "Job Seeker" |})] |}.

(** Stand-ins for the two parsers in the examples: each rejects the empty
    payload and reads any other payload as text. *)
Definition examplePdf (bytes : list Byte.byte) : jsstring + jsstring :=
  match bytes with
  | [] => inl (js "The PDF file is empty, i.e. its size is zero bytes.")
  | _ => inr (Utf8.decode bytes)
  end.
Definition exampleMammoth (bytes : list Byte.byte) : jsstring + jsstring :=
  match bytes with
  | [] => inl (js "Can't find end of central directory : is this a zip file ?")
  | _ => inr (Utf8.decode bytes)
  end.

(** What C8 states of a recommendation list: at most three entries, each the
    identifier of one of the supplied jobs. *)
Definition withinSupplied (allJobs : list JobItem) (ids : list Json) : Prop :=
  (length ids ≤ 3)%nat ∧ ∀ v, v ∈ ids → ∃ job, job ∈ allJobs ∧ v = JString (itemId job).

(** The environment, two replies of the collaborator and two requests of the
    examples. *)
Definition exampleEnv : Env := {| GEMINI_API_KEY := js "key"; CANVAS_MODE := false |}.
Definition proseReply (systemPrompt userQuery : jsstring) : GeminiReply :=
  Replied (Some (js "Here are the jobs I would recommend: j1")).
Definition fourIdsReply (systemPrompt userQuery : jsstring) : GeminiReply :=
  Replied (Some (js "[" ++ quoted (js "j7") ++ js ", " ++ quoted (js "j8") ++ js ", "
                 ++ quoted (js "j9") ++ js ", " ++ quoted (js "j10") ++ js "]")).
Definition exampleJob : JobItem :=
  {| itemId := js "j1"; itemTitle := js "Developer"; itemSkills := js "React, Node" |}.
Definition requestOf (uid : string) (allJobs : option (list JobItem)) : AiRequest :=
  {| reqUserId := Some (js uid);
     reqJobTitle := Some (js "Developer");
     reqJobDescription := Some (js "Web development");
     reqCompany := Some (js "Acme");
     reqAllJobs := allJobs |}.

(** A token as the parser leaves it: not empty, free of commas, trimmed. *)
Definition cleanToken (t : jsstring) : Prop := t ≠ [] ∧ (comma ∉ t) ∧ trim t = t.

(** Forty skills s01, ..., s40 and a resume that names the first twenty-three
    of them. *)
Definition twoDigits (n : nat) : jsstring :=
  [48 + N.of_nat (n / 10); 48 + N.of_nat (n mod 10)].
Definition skillName (n : nat) : jsstring := js "s" ++ twoDigits n.
Definition fortySkills : jsstring := join [comma] (map skillName (seq 1 40)).
Definition resumeWith23 : jsstring := join [space] (map skillName (seq 1 23)).

(** Every pair [m <= n] with [0 < n < bound] passes [check]. *)
Definition allPairsBelow (bound : nat) (check : nat -> nat -> bool) : bool :=
  forallb (fun n => forallb (fun m => check m n) (seq 0 (S n))) (seq 1 (bound - 1)).

(* ===================================================================== *)
(** * The rest of the server: job management and the download *)
(* ===================================================================== *)

(** [req.body] of POST /api/jobs.  [company] and [description] are stored as
    they come; the job form sends both as strings. *)
Record JobRequest := {
  postTitle : option jsstring;
  postCompany : jsstring;
  postDescription : jsstring;
  postSkills : option jsstring;
  postRecruiterId : option jsstring
}.

(** What the job endpoints answer: a status with a message, the created job
    (201), one job (200) or a list of jobs (200), each job with its id. *)
Inductive JobsReply :=
| JobsMessage (code : Z) (message : jsstring)
| JobCreated (id : jsstring) (job : JobDoc)
| JobFound (id : jsstring) (job : JobDoc)
| JobsListed (docs : list (jsstring * JobDoc)).

(** A string that is neither undefined nor empty. *)
Definition truthy (v : option jsstring) : option jsstring :=
  match v with
  | Some (c :: s) => Some (c :: s)
  | _ => None
  end.

(** app.post('/api/jobs'); [newId] is the id [add] gives the new document. *)
Definition postJob (db : Db) (req : JobRequest) (newId : jsstring) : JobsReply * Db :=
  match truthy (postTitle req), truthy (postRecruiterId req) with
  | Some jobTitle, Some rid =>
      let newJob := {| title := jobTitle;
                       company := postCompany req;
                       description := postDescription req;
                       skills := match truthy (postSkills req) with Some s => s | None => [] end;
                       recruiterId := rid |} in
      (JobCreated newId newJob,
       {| jobs := jobs db ++ [(newId, newJob)]; resumes := resumes db; users := users db |})
  | _, _ => (JobsMessage 400 (js "Missing required job fields."), db)
  end.

(** app.get('/api/jobs/my-jobs/:recruiterId') *)
Definition myJobs (db : Db) (rid : jsstring) : JobsReply :=
  JobsListed (filter (fun d => recruiterId d.2 = rid) (jobs db)).

(** app.delete('/api/jobs/:jobId') *)
Definition deleteJob (db : Db) (jobId : jsstring) : JobsReply * Db :=
  (JobsMessage 200 (js "Job successfully deleted."),
   {| jobs := filter (fun d => d.1 ≠ jobId) (jobs db);
      resumes := resumes db; users := users db |}).

(** app.get('/api/jobs') *)
Definition allJobs (db : Db) : JobsReply := JobsListed (jobs db).

(** app.get('/api/jobs/:jobId') *)
Definition getJob (db : Db) (jobId : jsstring) : JobsReply :=
  match getDoc (jobs db) jobId with
  | None => JobsMessage 404 (js "Job not found.")
  | Some job => JobFound jobId job
  end.

(** The files of the upload directory: path to content. *)
Abbreviation Disk := (gmap jsstring (list Byte.byte)).

Inductive DownloadReply :=
| DownloadMessage (code : Z) (message : jsstring)
| FileStreamed (contentType : jsstring) (content : list Byte.byte).

(** app.get('/api/resumes/download/:userId') *)
Definition downloadHandler (disk : Disk) (db : Db) (uid : jsstring) : DownloadReply :=
  match getDoc (resumes db) uid with
  | None => DownloadMessage 404 (js "Resume metadata not found.")
  | Some d =>
      match filePath d with
      | [] => DownloadMessage 404 (js "File not found on server.")
      | path =>
          match disk !! path with
          | None => DownloadMessage 404 (js "File not found on server.")
          | Some content => FileStreamed (js "application/pdf") content
          end
      end
  end.

(** The upload on the disk, for a request that reaches the handler (a file
    within multer's size limit): multer writes the file under its path before
    the handler runs, and the handler's [fs.unlinkSync] removes it again. *)
Definition uploadToDisk (pdf mammoth_extractRawText : list Byte.byte -> jsstring + jsstring)
    (disk : Disk) (db : Db) (req : UploadRequest) : Response * Db * Disk :=
  let written :=
    match upFile req with
    | Some (path, _, content) => <[path := content]> disk
    | None => disk
    end in
  let '(response, db', removed) := uploadHandler pdf mammoth_extractRawText db req in
  (response, db',
   match removed with
   | Some path => delete path written
   | None => written
   end).

(* ===================================================================== *)
(** * The pages that call the server *)
(* ===================================================================== *)

(** ApplicantsPage: the answer of the applicants endpoint is sorted again,
      applicantsResponse.data.sort((a, b) => b.matchScore - a.matchScore)
    and filtered by the search term,
      applicants.filter(applicant =>
        applicant.email.toLowerCase().includes(searchTerm.toLowerCase())) *)
Definition sortedApplicants (data : list Applicant) : list Applicant :=
  Array_sort byScoreDesc data.

Definition filteredApplicants (toLowerCase : jsstring -> jsstring)
    (searchTerm : jsstring) (applicants : list Applicant) : list Applicant :=
  filter (fun applicant =>
            includes (toLowerCase (applicantEmail applicant)) (toLowerCase searchTerm) = true)
         applicants.

(** JobDetailPage: job.skills.split(',').map(skill => skill.trim()), one tag
    for each. *)
Definition skillTags (jobSkills : jsstring) : list jsstring :=
  map trim (split comma jobSkills).

(** ResumeUploader.handleFileChange: the selected file (its [type]) is kept or
    refused with a message. *)
Definition allowedTypes : list jsstring :=
  [js "application/pdf";
   js "application/vnd.openxmlformats-officedocument.wordprocessingml.document";
   js "text/plain"].

Definition handleFileChange (selectedFile : option (jsstring * list Byte.byte))
    : option (jsstring * list Byte.byte) * jsstring :=
  match selectedFile with
  | Some file =>
      if bool_decide (file.1 ∈ allowedTypes) then (Some file, [])
      else (None, js "Please select a valid PDF, DOCX, or TXT file.")
  | None => (None, js "Please select a valid PDF, DOCX, or TXT file.")
  end.

(** JobBoardPage.getSnippet(text, maxLength = 100) *)
Definition getSnippet (text : option jsstring) (maxLength : nat) : jsstring :=
  match truthy text with
  | None => js "No description provided."
  | Some t => if (maxLength <? length t)%nat then take maxLength t ++ js "..." else t
  end.

(** No two spaces in a row; [afterSpace] tells that a space came just before. *)
Fixpoint spacesApart (afterSpace : bool) (s : jsstring) : bool :=
  match s with
  | [] => true
  | c :: r =>
      if c =? space then negb afterSpace && spacesApart true r
      else spacesApart false r
  end.

(** A posted job, an upload of the candidate u1 and a disk for the examples. *)
Definition examplePost (jobSkills : option jsstring) : JobRequest :=
  {| postTitle := Some (js "Tester"); postCompany := js "Acme";
     postDescription := js "Testing the web shop"; postSkills := jobSkills;
     postRecruiterId := Some (js "r1") |}.
Definition exampleUpload (uid : option jsstring) (mime content : string) : UploadRequest :=
  {| upUserId := uid;
     upFile := Some (js "uploads/u1-2", js mime, bytesOf content) |}.
Definition exampleDisk : Disk := {[ js "uploads/u1-1.txt" := bytesOf "I use React" ]}.

(** Closed decidable statements are settled by evaluation. *)
Ltac by_evaluation :=
  match goal with |- ?P => apply (bool_decide_unpack P); vm_compute; exact I end.

(* ===================================================================== *)
(** * The built-ins at work *)
(* ===================================================================== *)

Example split_keeps_empty_tokens :
  split comma (js "a,,b,") = [js "a"; []; js "b"; []].
Proof. reflexivity. Qed.

Example split_of_empty_string : split comma [] = [[]].
Proof. reflexivity. Qed.

Example trim_strips_both_ends : trim (0xFEFF :: js "  a b " ++ [0x0A; 0xA0]) = js "a b".
Proof. reflexivity. Qed.

Example includes_empty_needle : includes (js "abc") [] = true.
Proof. reflexivity. Qed.

Example normalize_replaces_and_collapses :
  normalize toLowerCaseAscii (js " C++ and  Node.js, ok") = js "c and node js, ok".
Proof. reflexivity. Qed.

Example matchResumeToJob_example :
  matchResumeToJob toLowerCaseAscii (js "I know javascript well") (js "Java, Rust ,,python")
  = {| matchScore := 33;
       matchedSkills := [js "java"];
       missingSkills := [js "rust"; js "python"] |}.
Proof. by vm_compute. Qed.

Example round_of_a_tie : Num.Math_round (Num.div (Num.ofNat 5) (Num.ofNat 2)) = 3%Z.
Proof. reflexivity. Qed.

Example utf8_two_three_four_bytes :
  Utf8.decode (bytesOfN [0xC3; 0xA9; 0xE2; 0x82; 0xAC; 0xF0; 0x9F; 0x98; 0x80])
  = [0xE9; 0x20AC; 0xD83D; 0xDE00].
Proof. reflexivity. Qed.

Example utf8_ill_formed :
  Utf8.decode (bytesOfN [0xE2; 0x82; 0x41; 0xC0; 0xED; 0xA0; 0x80; 0xC3])
  = [0xFFFD; 0x41; 0xFFFD; 0xFFFD; 0xFFFD; 0xFFFD; 0xFFFD].
Proof. reflexivity. Qed.

Example json_values :
  JsonText.parse (js " [1, -2.5e3, true, null, {}, [" ++ quoted (js "a\nb") ++ js "]] ")
  = Some (JArray [JNumber (js "1"); JNumber (js "-2.5e3"); JBool true; JNull;
                  JObject []; JArray [JString [97; 10; 98]]]).
Proof. by vm_compute. Qed.

Example json_syntax_errors :
  JsonText.parse (js "[1,]") = None ∧ JsonText.parse (js "01") = None
  ∧ JsonText.parse (js "j1, j2") = None ∧ JsonText.parse [] = None.
Proof. by vm_compute. Qed.

Example sort_is_stable :
  Array_sort (fun a b : Z * nat => (b.1 - a.1)%Z)
    [(50, 1%nat); (100, 2%nat); (50, 3%nat); (100, 4%nat); (0, 5%nat)]%Z
  = [(100, 2%nat); (100, 4%nat); (50, 1%nat); (50, 3%nat); (0, 5%nat)]%Z.
Proof. reflexivity. Qed.

(* ===================================================================== *)
(** * Facts about strings *)
(* ===================================================================== *)

Section StringFacts.
Implicit Types (s p t : jsstring) (c : N).

Lemma dropWhile_suffix f s : ∃ pre, s = pre ++ dropWhile f s.
Proof.
  induction s as [|c s [pre IH]]; simpl.
  - by exists [].
  - destruct (f c); [exists (c :: pre); simpl; by f_equal | by exists []].
Qed.

Lemma elem_of_dropWhile f s c : c ∈ dropWhile f s → c ∈ s.
Proof.
  destruct (dropWhile_suffix f s) as [pre E]. intros H. rewrite E. set_solver.
Qed.

Lemma elem_of_trim s c : c ∈ trim s → c ∈ s.
Proof.
  unfold trim, trimEnd, trimStart. rewrite elem_of_reverse.
  intros H%elem_of_dropWhile. rewrite elem_of_reverse in H.
  by apply elem_of_dropWhile in H.
Qed.

Lemma dropWhile_id f s :
  match s with [] => True | c :: _ => f c = false end → dropWhile f s = s.
Proof. destruct s as [|c s]; simpl; [done | by intros ->]. Qed.

Lemma startsWith_prefix s p : startsWith s p = true ↔ ∃ post, s = p ++ post.
Proof.
  revert s; induction p as [|a p IH]; intros s; simpl.
  - split; [by exists s | by destruct s].
  - destruct s as [|b s]; simpl; [split; [done | by intros [? ?]] |].
    rewrite andb_true_iff, N.eqb_eq, IH. split.
    + intros [-> [post ->]]. by exists post.
    + intros [post E]. simplify_eq. eauto.
Qed.

Lemma includes_substring s p : includes s p = true ↔ substringOf p s.
Proof.
  unfold substringOf. induction s as [|b s IH]; cbn [includes].
  - rewrite orb_false_r, startsWith_prefix. split.
    + intros [post E]. by exists [], post.
    + intros (pre & post & E). symmetry in E.
      apply app_eq_nil in E as [_ E]. by exists post.
  - rewrite orb_true_iff, startsWith_prefix, IH. split.
    + intros [[post E] | (pre & post & E)].
      * by exists [], post.
      * exists (b :: pre), post. by rewrite E.
    + intros (pre & post & E). destruct pre as [|b' pre]; simplify_eq/=.
      * left. eauto.
      * right. eauto.
Qed.

Lemma includes_elem_of s p c : includes s p = true → c ∈ p → c ∈ s.
Proof.
  rewrite includes_substring. intros (pre & post & ->) H. set_solver.
Qed.

Lemma collapseFrom_elem_of inRun s c :
  c ∈ collapseFrom inRun s → c = space ∨ (c ∈ s ∧ isWhiteSpace c = false).
Proof.
  revert inRun; induction s as [|b s IH]; intros inRun; simpl.
  - by intros ?%elem_of_nil.
  - destruct (isWhiteSpace b) eqn:Eb.
    + destruct inRun.
      * intros [?|[? ?]]%IH; [by left | right; split; [by right | done]].
      * intros [->|[?|[? ?]]%IH]%elem_of_cons; [by left | by left |].
        right; split; [by right | done].
    + intros [->|[?|[? ?]]%IH]%elem_of_cons.
      * right; split; [by left | done].
      * by left.
      * right; split; [by right | done].
Qed.

Lemma replaceSymbols_elem_of s c : c ∈ replaceSymbols s → keptByNormalize c = true.
Proof.
  unfold replaceSymbols. rewrite list_elem_of_In, in_map_iff.
  intros (b & E & _). destruct (keptByNormalize b) eqn:Eb; by subst.
Qed.

(** No token of a split holds the separator. *)
Lemma split_no_sep sep s tok : tok ∈ split sep s → sep ∉ tok.
Proof.
  revert tok; induction s as [|c s IH]; intros tok; simpl.
  - intros ->%list_elem_of_singleton. apply not_elem_of_nil.
  - destruct (c =? sep) eqn:E.
    + intros [->|H]%elem_of_cons; [apply not_elem_of_nil | by apply IH].
    + apply N.eqb_neq in E. destruct (split sep s) as [|t0 ts].
      * intros ->%list_elem_of_singleton.
        intros [?|?%elem_of_nil]%elem_of_cons; congruence.
      * intros [->|H]%elem_of_cons.
        -- intros [?|H]%elem_of_cons; [congruence |].
           by apply (IH t0); [left |].
        -- apply IH. by right.
Qed.

Lemma split_app_sep sep t s :
  sep ∉ t → split sep (t ++ sep :: s) = t :: split sep s.
Proof.
  induction t as [|c t IH]; intros Hn; simpl.
  - by rewrite N.eqb_refl.
  - destruct (c =? sep) eqn:E.
    + apply N.eqb_eq in E. subst. exfalso. apply Hn. by left.
    + rewrite IH; [done |]. intros ?. apply Hn. by right.
Qed.

Lemma split_no_sep_id sep t : sep ∉ t → split sep t = [t].
Proof.
  induction t as [|c t IH]; intros Hn; simpl; [done |].
  destruct (c =? sep) eqn:E.
  - apply N.eqb_eq in E. subst. exfalso. apply Hn. by left.
  - rewrite IH; [done |]. intros ?. apply Hn. by right.
Qed.

(** Splitting undoes joining, for tokens free of the separator. *)
Lemma split_join sep (toks : list jsstring) :
  toks ≠ [] → Forall (fun t => sep ∉ t) toks → split sep (join [sep] toks) = toks.
Proof.
  induction toks as [|t toks IH]; [done |]. intros _ H.
  apply Forall_cons in H as [Ht H]. destruct toks as [|t' toks].
  - simpl. by apply split_no_sep_id.
  - change (join [sep] (t :: t' :: toks)) with (t ++ sep :: join [sep] (t' :: toks)).
    rewrite split_app_sep by done. by rewrite IH.
Qed.

Lemma dropWhile_nil f s : dropWhile f s = [] ↔ Forall (fun c => f c = true) s.
Proof.
  induction s as [|c s IH]; simpl; [by split; [constructor |] |].
  destruct (f c) eqn:E.
  - rewrite IH, Forall_cons. tauto.
  - split; [done |]. intros [? _]%Forall_cons. congruence.
Qed.

Lemma dropWhile_head f s c r : dropWhile f s = c :: r → f c = false.
Proof.
  induction s as [|b s IH]; simpl; [done |].
  destruct (f b) eqn:E; [done |]. by intros [= <- _].
Qed.

(** A string trims to nothing exactly when it holds nothing but white space. *)
Lemma trim_nil s : trim s = [] ↔ Forall (fun c => isWhiteSpace c = true) s.
Proof.
  unfold trim, trimEnd, trimStart. split.
  - intros H. apply (f_equal reverse) in H. rewrite reverse_involutive in H.
    change (reverse []) with (@nil N) in H. apply dropWhile_nil in H.
    rewrite Forall_reverse in H.
    destruct (dropWhile isWhiteSpace s) as [|c r] eqn:E; [by apply dropWhile_nil |].
    apply dropWhile_head in E. apply Forall_cons in H as [? _]. congruence.
  - intros H. apply dropWhile_nil in H. by rewrite H.
Qed.
End StringFacts.

(* ===================================================================== *)
(** * The skill matcher *)
(* ===================================================================== *)

Section MatcherFacts.
Variable toLowerCase : jsstring -> jsstring.
Implicit Types (resume csv skill : jsstring).

Abbreviation matchOf := (matchResumeToJob toLowerCase).
Abbreviation found resume := (fun skill : jsstring => includes (normalize toLowerCase resume) skill = true).
Abbreviation absent resume := (fun skill : jsstring => includes (normalize toLowerCase resume) skill = false).

(** The [forEach] loop splits the required skills, in order, by [includes]. *)
Lemma classify_fold nr (l a b : list jsstring) :
  fold_left (classify nr) l (a, b)
  = (a ++ filter (fun s => includes nr s = true) l,
     b ++ filter (fun s => includes nr s = false) l).
Proof.
  revert a b; induction l as [|s l IH]; intros a b; simpl.
  - by rewrite !app_nil_r.
  - unfold classify at 2; simpl. rewrite !filter_cons.
    destruct (includes nr s) eqn:E; rewrite IH.
    + rewrite decide_True, decide_False by done. by rewrite <- app_assoc.
    + rewrite decide_False, decide_True by done. by rewrite <- app_assoc.
Qed.

Lemma matchedSkills_filter resume csv :
  matchedSkills (matchOf resume csv) = filter (found resume) (parseSkills toLowerCase csv).
Proof.
  unfold matchResumeToJob. case_decide as E; simpl.
  - apply nil_length_inv in E. by rewrite E.
  - by rewrite classify_fold.
Qed.

Lemma missingSkills_filter resume csv :
  missingSkills (matchOf resume csv) = filter (absent resume) (parseSkills toLowerCase csv).
Proof.
  unfold matchResumeToJob. case_decide as E; simpl.
  - apply nil_length_inv in E. by rewrite E.
  - by rewrite classify_fold.
Qed.

Lemma matchScore_percent resume csv :
  parseSkills toLowerCase csv ≠ [] →
  matchScore (matchOf resume csv)
  = percent (length (matchedSkills (matchOf resume csv)))
            (length (parseSkills toLowerCase csv)).
Proof.
  intros Hne. unfold matchResumeToJob. case_decide as E; simpl; [|done].
  by apply nil_length_inv in E.
Qed.

Lemma elem_of_matchedSkills resume csv skill :
  skill ∈ matchedSkills (matchOf resume csv)
  ↔ skill ∈ parseSkills toLowerCase csv ∧ includes (normalize toLowerCase resume) skill = true.
Proof. rewrite matchedSkills_filter, list_elem_of_filter. tauto. Qed.

Lemma elem_of_missingSkills resume csv skill :
  skill ∈ missingSkills (matchOf resume csv)
  ↔ skill ∈ parseSkills toLowerCase csv ∧ includes (normalize toLowerCase resume) skill = false.
Proof. rewrite missingSkills_filter, list_elem_of_filter. tauto. Qed.

Lemma parseSkills_ascii csv :
  lowersAscii toLowerCase → forallb isAscii csv = true →
  parseSkills toLowerCase csv = parseSkills toLowerCaseAscii csv.
Proof. intros H Hc. unfold parseSkills. by rewrite H. Qed.

Lemma matchResumeToJob_ascii resume csv :
  lowersAscii toLowerCase → forallb isAscii resume = true → forallb isAscii csv = true →
  matchOf resume csv = matchResumeToJob toLowerCaseAscii resume csv.
Proof.
  intros H Hr Hc. unfold matchResumeToJob, normalize.
  by rewrite parseSkills_ascii, (H resume).
Qed.

(** The normalized resume holds only a-z, 0-9, the space and the comma. *)
Lemma normalize_alphabet resume c :
  c ∈ normalize toLowerCase resume →
  isLower c = true ∨ isDigit c = true ∨ c = space ∨ c = comma.
Proof.
  unfold normalize, collapseWhiteSpace.
  intros [->|[Hc Hw]]%elem_of_trim%collapseFrom_elem_of; [tauto |].
  apply replaceSymbols_elem_of in Hc. unfold keptByNormalize in Hc.
  rewrite Hw, orb_false_r in Hc.
  apply orb_true_iff in Hc as [[?|?]%orb_true_iff | ?%N.eqb_eq]; tauto.
Qed.

Lemma parseSkills_no_comma csv skill :
  skill ∈ parseSkills toLowerCase csv → comma ∉ skill.
Proof.
  unfold parseSkills. rewrite list_elem_of_filter, list_elem_of_In, in_map_iff.
  intros (_ & tok & <- & Htok) Hc. apply list_elem_of_In in Htok.
  by apply (split_no_sep _ _ _ Htok), elem_of_trim.
Qed.


Lemma includes_symbol_false resume skill c :
  c ∈ skill → isLower c = false → isDigit c = false → isWhiteSpace c = false →
  c ≠ comma → includes (normalize toLowerCase resume) skill = false.
Proof.
  intros Hc Hl Hd Hw Hcomma.
  destruct (includes (normalize toLowerCase resume) skill) eqn:E; [|done].
  apply (includes_elem_of _ _ c) in E; [|done].
  apply normalize_alphabet in E as [?|[?|[->| ->]]]; try congruence.
  by vm_compute in Hw.
Qed.

Lemma filter_trimmed (toks : list jsstring) :
  Forall cleanToken toks →
  filter (fun skill : jsstring => (0 < length skill)%nat) (map trim toks) = toks.
Proof.
  induction 1 as [|t ts (Hne & _ & Htrim) _ IH]; [done |].
  cbn [map]. rewrite filter_cons, Htrim, decide_True.
  - by rewrite IH.
  - destruct t; [done | simpl; lia].
Qed.

Lemma parseSkills_join (toks : list jsstring) :
  Forall cleanToken toks →
  toLowerCase (join [comma] toks) = join [comma] toks →
  parseSkills toLowerCase (join [comma] toks) = toks.
Proof.
  intros H Hl. unfold parseSkills. rewrite Hl.
  destruct toks as [|t toks]; [done |].
  rewrite split_join; [by apply filter_trimmed | done |].
  eapply Forall_impl; [exact H |]. by intros ? (_ & ? & _).
Qed.

(** ** The claims about the matcher *)


(** C10. A parsed required skill holding a character that is neither a
    lower-case ASCII letter, nor a digit, nor white space is never matched: it
    is pushed on [missingSkills] whatever the resume text.  So it is with
    c++, node.js and c#. *)
Theorem skill_with_symbol_is_always_missing :
  lowersAscii toLowerCase →
  (∀ resume csv skill c,
      skill ∈ parseSkills toLowerCase csv → c ∈ skill →
      isLower c = false → isDigit c = false → isWhiteSpace c = false →
      skill ∈ missingSkills (matchOf resume csv)
      ∧ skill ∉ matchedSkills (matchOf resume csv))
  ∧ (∀ resume,
      matchedSkills (matchOf resume (js "c++, node.js, c#")) = []
      ∧ missingSkills (matchOf resume (js "c++, node.js, c#"))
        = [js "c++"; js "node.js"; js "c#"]).
Proof.
  intros Hlow. split.
  - intros resume csv skill c Hin Hc Hl Hd Hw.
    assert (includes (normalize toLowerCase resume) skill = false) as E.
    { apply (includes_symbol_false _ _ c); try done.
      intros ->. by apply (parseSkills_no_comma csv skill). }
    rewrite elem_of_missingSkills, elem_of_matchedSkills. split; [done |].
    intros [_ ?]. congruence.
  - intros resume.
    rewrite matchedSkills_filter, missingSkills_filter, parseSkills_ascii by done.
    change (parseSkills toLowerCaseAscii (js "c++, node.js, c#"))
      with [js "c++"; js "node.js"; js "c#"].
    assert (includes (normalize toLowerCase resume) (js "c++") = false) as E1.
    { apply (includes_symbol_false _ _ 43); try done. by_evaluation. }
    assert (includes (normalize toLowerCase resume) (js "node.js") = false) as E2.
    { apply (includes_symbol_false _ _ 46); try done. by_evaluation. }
    assert (includes (normalize toLowerCase resume) (js "c#") = false) as E3.
    { apply (includes_symbol_false _ _ 35); try done. by_evaluation. }
    rewrite !filter_cons, !filter_nil, E1, E2, E3. done.
Qed.

(** C3. Parsing the skills string removes nothing but empty tokens: a list of
    trimmed, non-empty, comma-free lower-case tokens joined by commas is read
    back as it is, in order and with its repetitions.  The string
    "React, React, Node" gives three entries, react twice, and each entry
    counts in the denominator of the score. *)
Theorem parseSkills_keeps_order_and_duplicates :
  lowersAscii toLowerCase →
  (∀ toks : list jsstring,
      Forall cleanToken toks →
      toLowerCase (join [comma] toks) = join [comma] toks →
      parseSkills toLowerCase (join [comma] toks) = toks)
  ∧ parseSkills toLowerCase (js "React, React, Node") = [js "react"; js "react"; js "node"]
  ∧ (∀ resume csv,
      parseSkills toLowerCase csv ≠ [] →
      matchScore (matchOf resume csv)
      = percent (length (matchedSkills (matchOf resume csv)))
                (length (parseSkills toLowerCase csv)))
  ∧ matchOf (js "React developer") (js "React, React, Node")
    = {| matchScore := 67;
         matchedSkills := [js "react"; js "react"];
         missingSkills := [js "node"] |}.
Proof.
  intros Hlow. split; [|split; [|split]].
  - apply parseSkills_join.
  - by rewrite parseSkills_ascii.
  - apply matchScore_percent.
  - by rewrite matchResumeToJob_ascii.
Qed.

Lemma length_filter_split (f : jsstring -> bool) (l : list jsstring) :
  (length (filter (fun s => f s = true) l) + length (filter (fun s => f s = false) l)
   = length l)%nat.
Proof.
  induction l as [|s l IH]; [done |]. rewrite !filter_cons.
  destruct (f s) eqn:E.
  - rewrite decide_True, decide_False by done. simpl. lia.
  - rewrite decide_False, decide_True by done. simpl. lia.
Qed.

(** C1, the score at forty skills of which twenty-three are found: the
    quotient 23/40 is rounded to the binary64 value just below 0.575, its
    product with 100 to the one just below 57.5, and [Math.round] gives 57,
    where rounding 100 * 23 / 40 = 57.5 half up gives 58. *)
Theorem matchScore_23_of_40_is_57 :
  lowersAscii toLowerCase →
  length (parseSkills toLowerCase fortySkills) = 40%nat
  ∧ length (matchedSkills (matchOf resumeWith23 fortySkills)) = 23%nat
  ∧ length (missingSkills (matchOf resumeWith23 fortySkills)) = 17%nat
  ∧ matchScore (matchOf resumeWith23 fortySkills) = 57%Z
  ∧ Num.roundHalfUpPercent 23 40 = 58%Z.
Proof.
  intros Hlow.
  rewrite matchResumeToJob_ascii, parseSkills_ascii by done.
  by vm_compute.
Qed.

(** Besides the score, the result is as C1 says: a perfect match when no
    skill is required; otherwise the two arrays split the parsed list, their
    lengths add up to its length, together they hold exactly its entries, and
    no skill is in both. *)
Theorem matched_and_missing_split_required resume csv :
  (parseSkills toLowerCase csv = [] →
     matchOf resume csv = {| matchScore := 100; matchedSkills := []; missingSkills := [] |})
  ∧ (length (matchedSkills (matchOf resume csv))
     + length (missingSkills (matchOf resume csv))
     = length (parseSkills toLowerCase csv))%nat
  ∧ (∀ skill, skill ∈ parseSkills toLowerCase csv
              ↔ skill ∈ matchedSkills (matchOf resume csv)
                ∨ skill ∈ missingSkills (matchOf resume csv))
  ∧ (∀ skill, skill ∈ matchedSkills (matchOf resume csv) →
              skill ∉ missingSkills (matchOf resume csv)).
Proof.
  split; [|split; [|split]].
  - intros E. unfold matchResumeToJob. rewrite E. by rewrite decide_True.
  - rewrite matchedSkills_filter, missingSkills_filter.
    apply (length_filter_split (includes (normalize toLowerCase resume))).
  - intros skill. rewrite elem_of_matchedSkills, elem_of_missingSkills.
    destruct (includes (normalize toLowerCase resume) skill); tauto.
  - intros skill. rewrite elem_of_matchedSkills, elem_of_missingSkills.
    intros [_ E] [_ E']. congruence.
Qed.
End MatcherFacts.

(** Below forty required skills the score is the exact percentage rounded half
    up: checked on every pair. *)
Theorem percent_exact_below_40 (m n : nat) :
  (0 < n < 40)%nat → (m ≤ n)%nat → percent m n = Num.roundHalfUpPercent m n.
Proof.
  intros Hn Hm.
  assert (allPairsBelow 40 (fun m n => (percent m n =? Num.roundHalfUpPercent m n)%Z) = true)
    as H by (vm_compute; reflexivity).
  unfold allPairsBelow in H. rewrite forallb_forall in H.
  specialize (H n). rewrite forallb_forall in H.
  apply Z.eqb_eq, H; apply in_seq; lia.
Qed.

(** ** The ASCII instance of [toLowerCase], and the witnesses *)

Lemma lowersAscii_instance : lowersAscii toLowerCaseAscii.
Proof. by intros s _. Qed.



Lemma skill_with_symbol_is_always_missing_witness :
  lowersAscii toLowerCaseAscii
  ∧ js "c++" ∈ missingSkills
      (matchResumeToJob toLowerCaseAscii (js "Ten years of C++ and C") (js "C++, C")).
Proof.
  split; [exact lowersAscii_instance |].
  destruct (skill_with_symbol_is_always_missing toLowerCaseAscii lowersAscii_instance)
    as [H _].
  apply (H (js "Ten years of C++ and C") (js "C++, C") (js "c++") 43);
    [by_evaluation | by_evaluation | reflexivity ..].
Defined.

Lemma parseSkills_keeps_order_and_duplicates_witness :
  lowersAscii toLowerCaseAscii
  ∧ parseSkills toLowerCaseAscii (join [comma] [js "react"; js "react"; js "node"])
    = [js "react"; js "react"; js "node"].
Proof.
  split; [exact lowersAscii_instance |].
  destruct (parseSkills_keeps_order_and_duplicates toLowerCaseAscii lowersAscii_instance)
    as [H _].
  apply (H [js "react"; js "react"; js "node"]); [|reflexivity].
  repeat constructor; try done; by_evaluation.
Defined.

Lemma matchScore_23_of_40_is_57_witness :
  lowersAscii toLowerCaseAscii
  ∧ matchScore (matchResumeToJob toLowerCaseAscii resumeWith23 fortySkills) = 57%Z.
Proof.
  split; [exact lowersAscii_instance |].
  apply (matchScore_23_of_40_is_57 toLowerCaseAscii lowersAscii_instance).
Defined.

Lemma percent_exact_below_40_witness :
  (0 < 8 < 40)%nat ∧ (1 ≤ 8)%nat ∧ percent 1 8 = 13%Z.
Proof.
  split; [lia |]. split; [lia |]. apply (percent_exact_below_40 1 8); lia.
Defined.

(* ===================================================================== *)
(** * Array.prototype.sort with a comparator [key b - key a] *)
(* ===================================================================== *)

Section SortFacts.
Context {A : Type} (key : A -> Z).
Implicit Types (x y : A) (l : list A).

Abbreviation descending := (fun x y => key y - key x)%Z.
Abbreviation notBelow := (fun x y => key y ≤ key x)%Z.
Abbreviation keyed k := (fun x => key x = k).

Lemma insertSorted_perm x l : insertSorted descending x l ≡ₚ x :: l.
Proof.
  induction l as [|y l IH]; simpl; [done |].
  destruct (key y - key x <=? 0)%Z; [done |].
  rewrite IH. apply Permutation_swap.
Qed.

Lemma Array_sort_perm l : Array_sort descending l ≡ₚ l.
Proof.
  induction l as [|x l IH]; simpl; [done |].
  by rewrite insertSorted_perm, IH.
Qed.

Lemma insertSorted_sorted x l :
  StronglySorted notBelow l → StronglySorted notBelow (insertSorted descending x l).
Proof.
  induction 1 as [|y l Hl IH Hy]; simpl.
  - repeat constructor.
  - destruct (key y - key x <=? 0)%Z eqn:E.
    + apply Z.leb_le in E. constructor; [by constructor |].
      constructor; [lia |]. eapply Forall_impl; [exact Hy |]. simpl. lia.
    + apply Z.leb_gt in E. constructor; [done |].
      rewrite insertSorted_perm. constructor; [lia | done].
Qed.

Lemma Array_sort_sorted l : StronglySorted notBelow (Array_sort descending l).
Proof.
  induction l as [|x l IH]; simpl; [constructor | by apply insertSorted_sorted].
Qed.

(** An element is inserted before every element of the same key. *)
Lemma insertSorted_stable k x l :
  filter (keyed k) (insertSorted descending x l) = filter (keyed k) (x :: l).
Proof.
  induction l as [|y l IH]; simpl; [done |].
  destruct (key y - key x <=? 0)%Z eqn:E; [done |].
  apply Z.leb_gt in E. rewrite (filter_cons _ y), IH, !filter_cons.
  repeat case_decide; try done; lia.
Qed.

Lemma Array_sort_stable k l :
  filter (keyed k) (Array_sort descending l) = filter (keyed k) l.
Proof.
  induction l as [|x l IH]; simpl; [done |].
  by rewrite insertSorted_stable, !filter_cons, IH.
Qed.

Lemma Array_sort_of_sorted l :
  StronglySorted notBelow l → Array_sort descending l = l.
Proof.
  induction 1 as [|x l Hl IH Hx]; simpl; [done |].
  rewrite IH. destruct Hx as [|y l Hy _]; simpl; [done |].
  destruct (key y - key x <=? 0)%Z eqn:E; [done |].
  apply Z.leb_gt in E. lia.
Qed.

(** Two descending lists with the same elements of every key, in the same
    order, are equal: a stable sort has one possible result. *)
Lemma sorted_stable_unique l1 l2 :
  StronglySorted notBelow l1 → StronglySorted notBelow l2 →
  (∀ k, filter (keyed k) l1 = filter (keyed k) l2) → l1 = l2.
Proof.
  intros H1; revert l2; induction H1 as [|x l1 Hl1 IH Hx]; intros l2 H2 Hf.
  - destruct l2 as [|y l2]; [done |].
    specialize (Hf (key y)). rewrite filter_cons, decide_True in Hf by done.
    by rewrite filter_nil in Hf.
  - destruct H2 as [|y l2 Hl2 Hy].
    { specialize (Hf (key x)). rewrite filter_cons, decide_True in Hf by done.
      by rewrite filter_nil in Hf. }
    assert (key x = key y) as Exy.
    { assert (y ∈ x :: l1) as Hy1.
      { pose proof (Hf (key y)) as E.
        rewrite (filter_cons _ y), decide_True in E by done.
        assert (y ∈ filter (keyed (key y)) (x :: l1)) as Hin by (rewrite E; by left).
        by apply list_elem_of_filter in Hin as [_ ?]. }
      assert (x ∈ y :: l2) as Hx2.
      { pose proof (Hf (key x)) as E.
        rewrite (filter_cons _ x), decide_True in E by done.
        assert (x ∈ filter (keyed (key x)) (y :: l2)) as Hin by (rewrite <- E; by left).
        by apply list_elem_of_filter in Hin as [_ ?]. }
      rewrite Forall_forall in Hx, Hy.
      apply elem_of_cons in Hy1 as [->|Hy1]; [done |].
      apply elem_of_cons in Hx2 as [->|Hx2]; [done |].
      specialize (Hx _ Hy1). specialize (Hy _ Hx2). simpl in *. lia. }
    pose proof (Hf (key x)) as E.
    rewrite !filter_cons, !decide_True in E by done.
    injection E as -> E. f_equal. apply IH; [done |]. intros k.
    specialize (Hf k). rewrite !filter_cons in Hf.
    case_decide; [by simplify_eq |done].
Qed.
End SortFacts.

(* ===================================================================== *)
(** * The applicant ranking *)
(* ===================================================================== *)

Section RankingFacts.
Variable toLowerCase : jsstring -> jsstring.
Implicit Types (db : Db) (usersMap : gmap jsstring UserDoc).
Implicit Types (docs : list (jsstring * ResumeDoc)) (log : list Event).

Lemma scoreResumes_eligible_only usersMap jobSkills docs acc log :
  scoreResumes toLowerCase usersMap jobSkills docs acc log
  = scoreResumes toLowerCase usersMap jobSkills (eligibleResumes usersMap docs) acc log.
Proof.
  revert acc log; induction docs as [|[uid d] docs IH]; intros acc log; [done |].
  unfold eligibleResumes. rewrite filter_cons. simpl.
  destruct (eligible usersMap uid) as [ud|] eqn:E.
  - rewrite decide_True by eauto. simpl. rewrite E.
    unfold mbind, eff_bind, Eff.bind.
    destruct (callMatch toLowerCase (resumeText d) jobSkills log) as [[e|r] log']; [done |].
    apply IH.
  - rewrite decide_False by (by intros [? ?]). apply IH.
Qed.

Lemma fold_insert_lookup_None (docs : list (jsstring * UserDoc)) usersMap uid :
  fold_left (fun acc doc => <[doc.1 := doc.2]> acc) docs usersMap !! uid = None
  ↔ usersMap !! uid = None ∧ getDoc docs uid = None.
Proof.
  revert usersMap; induction docs as [|[i d] docs IH]; intros usersMap; simpl.
  - tauto.
  - rewrite IH. case_decide as E.
    + subst i. rewrite lookup_insert_eq. split; [by intros [? _] | by intros [_ ?]].
    + by rewrite lookup_insert_ne.
Qed.

(** A user has no entry in [usersMap] exactly when the collection has no
    document of that id. *)
Lemma buildUsersMap_None (docs : list (jsstring * UserDoc)) uid :
  buildUsersMap docs !! uid = None ↔ getDoc docs uid = None.
Proof.
  unfold buildUsersMap. rewrite fold_insert_lookup_None, lookup_empty. tauto.
Qed.

Lemma eligible_Some usersMap uid ud :
  eligible usersMap uid = Some ud ↔ usersMap !! uid = Some ud ∧ role ud = js "Job Seeker".
Proof.
  unfold eligible. destruct (usersMap !! uid) as [ud'|].
  - case_decide as Hr; split.
    + by intros [= ->].
    + by intros [[= ->] _].
    + done.
    + by intros [[= ->] ?].
  - split; [done | by intros [? _]].
Qed.

Lemma entryOf_Some usersMap jobSkills d a :
  entryOf toLowerCase usersMap jobSkills d = Some a →
  userId a = d.1 ∧ is_Some (eligible usersMap d.1)
  ∧ ∃ text, resumeText d.2 = Some text
            ∧ applicantScore a = matchScore (matchResumeToJob toLowerCase text jobSkills)
            ∧ applicantSkills a = matchedSkills (matchResumeToJob toLowerCase text jobSkills).
Proof.
  unfold entryOf. destruct (eligible usersMap d.1) as [ud|]; [|done].
  destruct (resumeText d.2) as [text|]; [|done].
  intros [= <-]; simpl. eauto 7.
Qed.

(** When every eligible candidate's document has its text, the loop pushes one
    entry per eligible candidate, in snapshot order, and invokes the matcher
    once for each. *)
Lemma scoreResumes_ok usersMap jobSkills docs acc log :
  Forall (fun d => is_Some (resumeText d.2)) (eligibleResumes usersMap docs) →
  scoreResumes toLowerCase usersMap jobSkills docs acc log
  = (inr (acc ++ omap (entryOf toLowerCase usersMap jobSkills) docs),
     log ++ map (fun d => MatchInvoked (resumeText d.2) jobSkills)
                (eligibleResumes usersMap docs)).
Proof.
  revert acc log; induction docs as [|[uid d] docs IH]; intros acc log.
  - intros _. simpl. by rewrite !app_nil_r.
  - unfold eligibleResumes. rewrite filter_cons. simpl. unfold entryOf at 1. simpl.
    destruct (eligible usersMap uid) as [ud|] eqn:E.
    + rewrite decide_True by eauto. intros [[text Ht] H]%Forall_cons. simpl in Ht.
      unfold mbind, eff_bind, Eff.bind, callMatch. simpl. rewrite Ht. simpl.
      rewrite IH by done. simpl. by rewrite <- !app_assoc.
    + rewrite decide_False by (by intros [? ?]). intros H. by rewrite IH.
Qed.

Lemma scoreResumes_inv usersMap jobSkills docs acc log l log' :
  scoreResumes toLowerCase usersMap jobSkills docs acc log = (inr l, log') →
  l = acc ++ omap (entryOf toLowerCase usersMap jobSkills) docs.
Proof.
  revert acc log; induction docs as [|[uid d] docs IH]; intros acc log.
  - simpl. intros [= <- _]. by rewrite app_nil_r.
  - simpl. unfold entryOf at 1. simpl.
    destruct (eligible usersMap uid) as [ud|] eqn:E; [|apply IH].
    unfold mbind, eff_bind, Eff.bind, callMatch. simpl.
    destruct (resumeText d) as [text|]; simpl; [|done].
    intros ->%IH. by rewrite <- app_assoc.
Qed.

Lemma omap_entryOf_ids usersMap jobSkills docs :
  Forall (fun d => is_Some (resumeText d.2)) (eligibleResumes usersMap docs) →
  map userId (omap (entryOf toLowerCase usersMap jobSkills) docs)
  = map fst (eligibleResumes usersMap docs).
Proof.
  induction docs as [|[uid d] docs IH]; [done |].
  unfold eligibleResumes. rewrite filter_cons. simpl. unfold entryOf at 1. simpl.
  destruct (eligible usersMap uid) as [ud|] eqn:E.
  - rewrite decide_True by eauto. intros [[text Ht] H]%Forall_cons. simpl in Ht.
    rewrite Ht. simpl. f_equal. by apply IH.
  - rewrite decide_False by (by intros [? ?]). apply IH.
Qed.

Lemma applicantsHandler_ok db jobId job log :
  getDoc (jobs db) jobId = Some job →
  Forall (fun d => is_Some (resumeText d.2))
         (eligibleResumes (buildUsersMap (users db)) (resumes db)) →
  applicantsHandler toLowerCase db jobId log
  = (inr (send 200 (ApplicantsBody
            (Array_sort byScoreDesc
               (omap (entryOf toLowerCase (buildUsersMap (users db)) (skills job))
                     (resumes db))))),
     log ++ map (fun d => MatchInvoked (resumeText d.2) (skills job))
                (eligibleResumes (buildUsersMap (users db)) (resumes db))).
Proof.
  intros Hjob Hdocs.
  unfold applicantsHandler, Eff.tryCatch. rewrite Hjob.
  unfold mbind, eff_bind, Eff.bind. by rewrite scoreResumes_ok.
Qed.

(** The match endpoint: an unknown job and a candidate without stored resume
    text are answered 404 before the matcher is invoked; otherwise the answer is
    the matcher's result for the stored text and the job's skills. *)
Theorem match_endpoint_looks_up_job_then_resume db jobId uid :
  (getDoc (jobs db) jobId = None →
     Eff.run (matchHandler toLowerCase db jobId uid) = (inr jobNotFound, []))
  ∧ (∀ job, getDoc (jobs db) jobId = Some job → storedResumeText db uid = None →
       Eff.run (matchHandler toLowerCase db jobId uid) = (inr resumeNotFound, []))
  ∧ (∀ job text,
       getDoc (jobs db) jobId = Some job → storedResumeText db uid = Some text →
       Eff.run (matchHandler toLowerCase db jobId uid)
       = (inr (send 200 (MatchBody (matchResumeToJob toLowerCase text (skills job)))),
          [MatchInvoked (Some text) (skills job)])).
Proof.
  unfold Eff.run, matchHandler, Eff.tryCatch. split; [|split].
  - by intros ->.
  - by intros job -> ->.
  - by intros job text -> ->.
Qed.

(** ** The claims about the ranking *)

(** C4. For a stored job and eligible candidates whose documents have their
    text, the endpoint answers with the eligible candidates, each with the
    matcher's score for the stored text, ordered by score descending;
    candidates of equal score keep their snapshot order.  This order is the
    only one with these properties: the answer is the same whatever was logged
    before the call, and sorting it again (as the page does) changes
    nothing. *)
Theorem applicants_ranked_descending_and_stable db jobId job :
  getDoc (jobs db) jobId = Some job →
  Forall (fun d => is_Some (resumeText d.2))
         (eligibleResumes (buildUsersMap (users db)) (resumes db)) →
  let pushed := omap (entryOf toLowerCase (buildUsersMap (users db)) (skills job))
                     (resumes db) in
  ∃ ranked,
    (∀ log, (applicantsHandler toLowerCase db jobId log).1
            = inr (send 200 (ApplicantsBody ranked)))
    ∧ map userId pushed = map fst (eligibleResumes (buildUsersMap (users db)) (resumes db))
    ∧ (∀ a, a ∈ pushed →
         ∃ d text, d ∈ resumes db ∧ d.1 = userId a ∧ resumeText d.2 = Some text
                   ∧ applicantScore a
                     = matchScore (matchResumeToJob toLowerCase text (skills job)))
    ∧ ranked ≡ₚ pushed
    ∧ StronglySorted (fun a b => applicantScore b ≤ applicantScore a)%Z ranked
    ∧ (∀ score, filter (fun a => applicantScore a = score) ranked
                = filter (fun a => applicantScore a = score) pushed)
    ∧ (∀ other,
         StronglySorted (fun a b => applicantScore b ≤ applicantScore a)%Z other →
         (∀ score, filter (fun a => applicantScore a = score) other
                   = filter (fun a => applicantScore a = score) pushed) →
         other = ranked)
    ∧ Array_sort byScoreDesc ranked = ranked.
Proof.
  intros Hjob Hdocs pushed. exists (Array_sort byScoreDesc pushed).
  pose proof (Array_sort_sorted applicantScore pushed) as Hsorted.
  pose proof (Array_sort_stable applicantScore) as Hstable.
  split; [|split; [|split; [|split; [|split; [|split; [|split]]]]]].
  - intros log. by rewrite (applicantsHandler_ok db jobId job).
  - by apply omap_entryOf_ids.
  - intros a (d & Hd & Ha)%list_elem_of_omap.
    apply entryOf_Some in Ha as (Hid & _ & text & Ht & Hs & _).
    by exists d, text.
  - apply (Array_sort_perm applicantScore).
  - exact Hsorted.
  - intros score. apply Hstable.
  - intros other Hother Hsame.
    apply (sorted_stable_unique applicantScore); [done | exact Hsorted |].
    intros k. rewrite Hsame. symmetry. apply Hstable.
  - by apply (Array_sort_of_sorted applicantScore).
Qed.

(** C9. An unknown job is answered with "Job not found" before the matcher is
    invoked, and with no list.  The resumes of candidates whose user document
    is missing, or is found in [usersMap] with another role than job seeker,
    have no effect on the answer or on the matcher's invocations, and none of
    them is listed. *)
Theorem applicants_job_not_found_and_ineligible_excluded db jobId :
  (getDoc (jobs db) jobId = None →
     Eff.run (applicantsHandler toLowerCase db jobId) = (inr jobNotFound, []))
  ∧ Eff.run (applicantsHandler toLowerCase db jobId)
    = Eff.run (applicantsHandler toLowerCase (onlyEligible db) jobId)
  ∧ (∀ ranked uid,
       (Eff.run (applicantsHandler toLowerCase db jobId)).1
         = inr (send 200 (ApplicantsBody ranked)) →
       (getDoc (users db) uid = None
        ∨ ∃ ud, buildUsersMap (users db) !! uid = Some ud ∧ role ud ≠ js "Job Seeker") →
       uid ∉ map userId ranked).
Proof.
  split; [|split].
  - intros Hjob. unfold Eff.run, applicantsHandler, Eff.tryCatch. by rewrite Hjob.
  - unfold Eff.run, applicantsHandler, Eff.tryCatch, onlyEligible. simpl.
    destruct (getDoc (jobs db) jobId) as [job|]; [|done].
    unfold mbind, eff_bind, Eff.bind.
    by rewrite scoreResumes_eligible_only.
  - intros ranked uid Hrun Hrole Hin.
    unfold Eff.run, applicantsHandler, Eff.tryCatch in Hrun.
    destruct (getDoc (jobs db) jobId) as [job|]; [|done].
    unfold mbind, eff_bind, Eff.bind in Hrun.
    destruct (scoreResumes _ _ _ _ _ _) as [[e|l] log'] eqn:E; [done |].
    apply scoreResumes_inv in E. simpl in E, Hrun. injection Hrun as <-. subst l.
    apply list_elem_of_In, in_map_iff in Hin as (a & <- & Ha).
    apply list_elem_of_In in Ha. rewrite (Array_sort_perm applicantScore) in Ha.
    apply list_elem_of_omap in Ha as (d & _ & Hd).
    apply entryOf_Some in Hd as (Hid & [ud Hel] & _). rewrite <- Hid in Hel.
    apply eligible_Some in Hel as [Hud Hr].
    destruct Hrole as [Hnone%buildUsersMap_None|(ud' & Hud' & Hr')]; congruence.
Qed.
End RankingFacts.

(* ===================================================================== *)
(** * Document extraction *)
(* ===================================================================== *)

Section ExtractorFacts.
Variable pdf : list Byte.byte -> jsstring + jsstring.
Variable mammoth_extractRawText : list Byte.byte -> jsstring + jsstring.
Implicit Types (bytes : list Byte.byte) (mime text : jsstring).

Abbreviation extract := (extractText pdf mammoth_extractRawText).
Abbreviation blank text := (Forall (fun c => isWhiteSpace c = true) text).

Lemma extractText_unsupported bytes mime :
  mime ≠ mimePdf → mime ≠ mimeDocx → mime ≠ mimeTxt →
  extract bytes mime = Failed UnsupportedFileType.
Proof.
  intros H1 H2 H3. unfold extractText. by rewrite !decide_False.
Qed.

Lemma extractText_txt bytes :
  extract bytes mimeTxt
  = match trim (Utf8.decode bytes) with
    | [] => Failed CouldNotExtractText
    | _ :: _ => Extracted (Utf8.decode bytes)
    end.
Proof. reflexivity. Qed.

Lemma extractText_pdf bytes :
  extract bytes mimePdf
  = match pdf bytes with
    | inl m => Failed (ParserRejected m)
    | inr text => match trim text with
                  | [] => Failed CouldNotExtractText
                  | _ :: _ => Extracted text
                  end
    end.
Proof. unfold extractText. rewrite decide_True by done. by destruct (pdf bytes). Qed.

Lemma extractText_docx bytes :
  extract bytes mimeDocx
  = match mammoth_extractRawText bytes with
    | inl m => Failed (ParserRejected m)
    | inr text => match trim text with
                  | [] => Failed CouldNotExtractText
                  | _ :: _ => Extracted text
                  end
    end.
Proof.
  unfold extractText. rewrite decide_False, decide_True by done.
  by destruct (mammoth_extractRawText bytes).
Qed.


Lemma extractText_Extracted bytes mime text :
  extract bytes mime = Extracted text → trim text ≠ [].
Proof.
  unfold extractText. intros H.
  match type of H with
  | match ?parsed with _ => _ end = _ => destruct parsed as [e|t]; [done |]
  end.
  destruct (trim t) eqn:Et; [done |]. injection H as <-. by rewrite Et.
Qed.

Lemma getDoc_setResume (docs : list (jsstring * ResumeDoc)) uid doc :
  getDoc (setResume docs uid doc) uid = Some doc.
Proof.
  unfold setResume. destruct (getDoc docs uid) as [d0|] eqn:E.
  - induction docs as [|[i d] docs IH]; [done |]. simpl in *.
    case_decide as Hi; simpl.
    + by rewrite decide_True.
    + rewrite decide_False by done. by apply IH.
  - induction docs as [|[i d] docs IH]; simpl in *.
    + by rewrite decide_True.
    + case_decide; [done | by apply IH].
Qed.

(** The endpoint around the extraction: a failed extraction is answered 500,
    leaves the store as it was and removes the uploaded file; a successful one
    stores the text as the candidate's resume, whatever was stored before. *)
Theorem upload_purges_on_failure_and_overwrites_on_success db req uid path mime bytes :
  upUserId req = Some uid → uid ≠ [] → upFile req = Some (path, mime, bytes) →
  match extract bytes mime with
  | Failed e =>
      uploadHandler pdf mammoth_extractRawText db req
      = (send 500 (Message (js "Processing failed: " ++ errorMessage e)), db, Some path)
  | Extracted text =>
      ∃ db', uploadHandler pdf mammoth_extractRawText db req
             = (send 200 (Message (js "Resume uploaded and processed successfully.")), db', None)
             ∧ storedResumeText db' uid = Some text
             ∧ jobs db' = jobs db ∧ users db' = users db
  end.
Proof.
  intros Huid Hne Hfile. destruct uid as [|u id]; [done |].
  unfold uploadHandler. rewrite Huid, Hfile.
  destruct (extract bytes mime) as [text|e] eqn:E; [|done].
  eexists. split; [done |]. split; [|done].
  unfold storedResumeText. simpl. rewrite getDoc_setResume. simpl.
  apply extractText_Extracted in E. by destruct text.
Qed.
End ExtractorFacts.


(* ===================================================================== *)
(** * The AI content gateway *)
(* ===================================================================== *)

Section GatewayFacts.
Variable JSON_parse : jsstring -> option Json.
Variable fetchGemini : jsstring -> jsstring -> GeminiReply.
Variable env : Env.
Implicit Types (db : Db) (req : AiRequest) (log : list Event).

Abbreviation generate := (generateGeminiContent fetchGemini env).
Abbreviation suggestions := (suggestionsHandler JSON_parse fetchGemini env).
Abbreviation keyAvailable := (GEMINI_API_KEY env ≠ [] ∨ CANVAS_MODE env = true).

(** A generation that returns a text has posted once, and the text is the
    collaborator's reply. *)
Lemma generate_returns systemPrompt userQuery log text log' :
  generate systemPrompt userQuery log = (inr text, log') →
  fetchGemini systemPrompt userQuery = Replied (Some text)
  ∧ text ≠ [] ∧ log' = log ++ [GeminiPosted systemPrompt userQuery].
Proof.
  unfold generateGeminiContent.
  destruct (bool_decide _ && negb _); [done |].
  unfold mbind, eff_bind, Eff.bind, Eff.emit.
  destruct (fetchGemini systemPrompt userQuery) as [|[[|c raw]|]]; try done.
  by intros [= <- <-].
Qed.

Lemma generate_reply systemPrompt userQuery log raw :
  keyAvailable → fetchGemini systemPrompt userQuery = Replied (Some raw) → raw ≠ [] →
  generate systemPrompt userQuery log
  = (inr raw, log ++ [GeminiPosted systemPrompt userQuery]).
Proof.
  intros Hkey Hreply Hraw. unfold generateGeminiContent.
  assert (bool_decide (GEMINI_API_KEY env = []) && negb (CANVAS_MODE env) = false) as ->.
  { destruct Hkey as [?| ->]; [by rewrite bool_decide_eq_false_2 | apply andb_false_r]. }
  unfold mbind, eff_bind, Eff.bind, Eff.emit. rewrite Hreply.
  by destruct raw.
Qed.

Lemma parseSuggestions_malformed raw :
  JSON_parse (trim raw) = None
  ∨ (∃ v, JSON_parse (trim raw) = Some v ∧ ∀ items, v ≠ JArray items) →
  parseSuggestions JSON_parse raw = [].
Proof.
  unfold parseSuggestions. intros [-> | (v & -> & Hv)]; [done |].
  destruct v; try done. by destruct (Hv items).
Qed.

(** ** The claims about the gateway *)

(** C5. When the collaborator's text is no JSON, or JSON that is no array,
    the recommendation endpoint answers 200 with an empty list of
    suggestions: nothing is thrown on to the caller. *)
Theorem malformed_recommendation_text_yields_empty_list
    db req u id job others resumeText raw :
  reqUserId req = Some (u :: id) → reqAllJobs req = Some (job :: others) →
  storedResumeText db (u :: id) = Some resumeText →
  keyAvailable →
  fetchGemini suggestionsSystemPrompt (suggestionsUserQuery resumeText (job :: others))
    = Replied (Some raw) →
  raw ≠ [] →
  (JSON_parse (trim raw) = None
   ∨ ∃ v, JSON_parse (trim raw) = Some v ∧ ∀ items, v ≠ JArray items) →
  Eff.run (suggestions db req)
  = (inr (send 200 (SuggestionsBody [])),
     [GeminiPosted suggestionsSystemPrompt
        (suggestionsUserQuery resumeText (job :: others))]).
Proof.
  intros Huid Hjobs Hresume Hkey Hreply Hraw Hbad.
  unfold Eff.run, suggestionsHandler, Eff.tryCatch. rewrite Huid, Hjobs, Hresume.
  unfold mbind, eff_bind, Eff.bind.
  rewrite (generate_reply _ _ _ raw) by done.
  by rewrite parseSuggestions_malformed.
Qed.

(** C6, as the code has it.  For a candidate (a non-empty user id) without
    stored resume text, the cover-letter and the interview endpoints answer
    404 "Please upload your resume first ..." and post nothing to the
    collaborator; the recommendation endpoint does the same when the request
    carries a non-empty list of jobs, and otherwise answers 400 first, again
    without posting. *)
Theorem ai_endpoints_need_resume_before_any_call db req uid :
  reqUserId req = Some uid → uid ≠ [] → storedResumeText db uid = None →
  Eff.run (coverLetterHandler fetchGemini env db req) = (inr coverLetterResumeRequired, [])
  ∧ Eff.run (interviewHandler fetchGemini env db req) = (inr interviewResumeRequired, [])
  ∧ Eff.run (suggestions db req)
    = (inr (match reqAllJobs req with
            | Some (_ :: _) => suggestionsResumeRequired
            | _ => jobsRequired
            end), []).
Proof.
  intros Huid Hne Hresume. destruct uid as [|u id]; [done |].
  unfold Eff.run, coverLetterHandler, interviewHandler, suggestionsHandler, Eff.tryCatch.
  rewrite Huid, Hresume. repeat split.
  by destruct (reqAllJobs req) as [[|job others]|].
Qed.

(** C8, as the code has it.  A non-empty list of suggestions is the array that
    the collaborator's trimmed reply parses to, entry for entry: no bound on
    its length and no membership in the supplied jobs is checked. *)
Theorem recommendations_are_the_parsed_reply db req ids :
  (Eff.run (suggestions db req)).1 = inr (send 200 (SuggestionsBody ids)) →
  ids ≠ [] →
  ∃ uid allJobs resumeText raw,
    reqUserId req = Some uid ∧ reqAllJobs req = Some allJobs
    ∧ storedResumeText db uid = Some resumeText
    ∧ fetchGemini suggestionsSystemPrompt (suggestionsUserQuery resumeText allJobs)
      = Replied (Some raw)
    ∧ JSON_parse (trim raw) = Some (JArray ids).
Proof.
  unfold Eff.run, suggestionsHandler, Eff.tryCatch.
  destruct (reqUserId req) as [[|u id]|] eqn:Huid; try done.
  destruct (reqAllJobs req) as [[|job others]|] eqn:Hjobs; try done.
  destruct (storedResumeText db (u :: id)) as [resumeText|] eqn:Hresume; [|done].
  unfold mbind, eff_bind, Eff.bind.
  destruct (generate _ _ _) as [[e|raw] log'] eqn:Hgen; [done |].
  apply generate_returns in Hgen as (Hreply & _ & _).
  simpl. intros [= <-] Hids.
  exists (u :: id), (job :: others), resumeText, raw. repeat split; try done.
  unfold parseSuggestions in *.
  destruct (JSON_parse (trim raw)) as [[]|]; done.
Qed.
End GatewayFacts.

(* ===================================================================== *)
(** * The claims at concrete inputs *)
(* ===================================================================== *)

Lemma applicants_ranked_descending_and_stable_witness :
  is_Some (getDoc (jobs exampleDb) (js "j1"))
  ∧ ∃ ranked,
      (Eff.run (applicantsHandler toLowerCaseAscii exampleDb (js "j1"))).1
        = inr (send 200 (ApplicantsBody ranked))
      ∧ map userId ranked = [js "u2"; js "u1"; js "u5"]
      ∧ map applicantScore ranked = [100; 50; 50]%Z.
Proof.
  split; [by eexists |].
  destruct (applicants_ranked_descending_and_stable toLowerCaseAscii exampleDb (js "j1")
              {| title := js "Developer"; company := js "Acme";
                 description := js "Web development";
                 skills := js "React, Node"; recruiterId := js "r1" |})
    as (ranked & Hrun & _); [reflexivity | by_evaluation |].
  specialize (Hrun []). exists ranked. split; [exact Hrun |].
  vm_compute in Hrun. by injection Hrun as <-.
Defined.

Lemma applicants_job_not_found_and_ineligible_excluded_witness :
  getDoc (jobs exampleDb) (js "j2") = None
  ∧ Eff.run (applicantsHandler toLowerCaseAscii exampleDb (js "j2")) = (inr jobNotFound, []).
Proof.
  split; [reflexivity |].
  by apply (applicants_job_not_found_and_ineligible_excluded toLowerCaseAscii exampleDb (js "j2")).
Defined.

Lemma match_endpoint_looks_up_job_then_resume_witness :
  is_Some (getDoc (jobs exampleDb) (js "j1"))
  ∧ storedResumeText exampleDb (js "u3") = None
  ∧ Eff.run (matchHandler toLowerCaseAscii exampleDb (js "j1") (js "u3"))
    = (inr resumeNotFound, []).
Proof.
  split; [by eexists |]. split; [reflexivity |].
  destruct (match_endpoint_looks_up_job_then_resume toLowerCaseAscii exampleDb
              (js "j1") (js "u3")) as (_ & H & _).
  by eapply H.
Defined.

Lemma upload_purges_on_failure_and_overwrites_on_success_witness :
  uploadHandler examplePdf exampleMammoth exampleDb
    {| upUserId := Some (js "u1");
       upFile := Some (js "uploads/u1-2.png", js "image/png", bytesOf "Hello World") |}
  = (send 500 (Message (js "Processing failed: Unsupported file type. Please use PDF, DOCX, or TXT.")),
     exampleDb, Some (js "uploads/u1-2.png")).
Proof.
  by apply (upload_purges_on_failure_and_overwrites_on_success examplePdf exampleMammoth
              exampleDb _ (js "u1") (js "uploads/u1-2.png") (js "image/png")
              (bytesOf "Hello World")).
Defined.

Lemma malformed_recommendation_text_yields_empty_list_witness :
  JsonText.parse (trim (js "Here are the jobs I would recommend: j1")) = None
  ∧ (Eff.run (suggestionsHandler JsonText.parse proseReply exampleEnv exampleDb
                (requestOf "u1" (Some [exampleJob])))).1
    = inr (send 200 (SuggestionsBody [])).
Proof.
  split; [reflexivity |].
  rewrite (malformed_recommendation_text_yields_empty_list JsonText.parse proseReply
             exampleEnv exampleDb (requestOf "u1" (Some [exampleJob]))
             117 (js "1") exampleJob [] (js "I use React")
             (js "Here are the jobs I would recommend: j1")); try done.
  - by left.
  - by left.
Defined.

(** C6 as stated fails for the recommendation endpoint: the candidate u9 has no
    stored resume, the request carries an empty list of jobs, and the answer
    is 400 "User ID and available jobs are required." *)
Lemma suggestions_without_jobs_is_not_resume_required :
  storedResumeText exampleDb (js "u9") = None
  ∧ Eff.run (suggestionsHandler JsonText.parse proseReply exampleEnv exampleDb
               (requestOf "u9" (Some [])))
    = (inr jobsRequired, [])
  ∧ jobsRequired ≠ suggestionsResumeRequired.
Proof. repeat split. by intros [=]. Qed.

Lemma ai_endpoints_need_resume_before_any_call_witness :
  storedResumeText exampleDb (js "u9") = None
  ∧ Eff.run (coverLetterHandler proseReply exampleEnv exampleDb (requestOf "u9" None))
    = (inr coverLetterResumeRequired, []).
Proof.
  split; [reflexivity |].
  by apply (ai_endpoints_need_resume_before_any_call JsonText.parse proseReply exampleEnv
              exampleDb (requestOf "u9" None) (js "u9")).
Defined.

(** C8 as stated fails: the collaborator answers with four identifiers, none of
    them of the one supplied job, and all four are sent back. *)
Lemma four_unknown_ids_are_sent_back :
  let ids := [JString (js "j7"); JString (js "j8"); JString (js "j9"); JString (js "j10")] in
  (Eff.run (suggestionsHandler JsonText.parse fourIdsReply exampleEnv exampleDb
              (requestOf "u1" (Some [exampleJob])))).1
    = inr (send 200 (SuggestionsBody ids))
  ∧ ids ≠ []
  ∧ ¬ (length ids ≤ 3)%nat
  ∧ ¬ (∃ job, job ∈ [exampleJob] ∧ JString (js "j7") = JString (itemId job))
  ∧ ¬ withinSupplied [exampleJob] ids.
Proof.
  intros ids. split; [by vm_compute |]. split; [done |].
  split; [simpl; lia |]. split.
  - intros (job & ->%list_elem_of_singleton & [=]).
  - intros [Hlen _]. simpl in Hlen. lia.
Qed.

Lemma recommendations_are_the_parsed_reply_witness :
  ∃ raw,
    fourIdsReply suggestionsSystemPrompt
      (suggestionsUserQuery (js "I use React") [exampleJob]) = Replied (Some raw)
    ∧ JsonText.parse (trim raw)
      = Some (JArray [JString (js "j7"); JString (js "j8"); JString (js "j9"); JString (js "j10")]).
Proof.
  destruct (recommendations_are_the_parsed_reply JsonText.parse fourIdsReply exampleEnv
              exampleDb (requestOf "u1" (Some [exampleJob]))
              [JString (js "j7"); JString (js "j8"); JString (js "j9"); JString (js "j10")])
    as (uid & allJobs & resumeText & raw & _ & _ & _ & Hreply & Hparse);
    [by vm_compute | done |].
  exists raw. split; [exact Hreply | exact Hparse].
Defined.

(* ===================================================================== *)
(** * More about the matcher: what a matched skill looks like, and what
      more resume text does *)
(* ===================================================================== *)

Section NormalizedText.
Implicit Types (s t p : jsstring) (c : N).

Lemma substringOf_refl s : substringOf s s.
Proof. exists [], []. by rewrite app_nil_r. Qed.

Lemma substringOf_trans p t s : substringOf p t → substringOf t s → substringOf p s.
Proof.
  intros (a & b & ->) (a' & b' & ->). exists (a' ++ a), (b ++ b').
  by rewrite <- !app_assoc.
Qed.

Lemma substringOf_app_l p s pre : substringOf p s → substringOf p (pre ++ s).
Proof. intros (a & b & ->). exists (pre ++ a), b. by rewrite <- app_assoc. Qed.

Lemma substringOf_app_r p s post : substringOf p s → substringOf p (s ++ post).
Proof. intros (a & b & ->). exists a, (b ++ post). by rewrite <- !app_assoc. Qed.

Lemma trim_substringOf s : substringOf (trim s) s.
Proof.
  unfold trim, trimEnd, trimStart.
  destruct (dropWhile_suffix isWhiteSpace s) as [pre E].
  destruct (dropWhile_suffix isWhiteSpace (reverse (dropWhile isWhiteSpace s))) as [post E'].
  apply (f_equal reverse) in E'. rewrite reverse_involutive, reverse_app in E'.
  exists pre, (reverse post). by rewrite <- E', <- E.
Qed.

(** What is left of a trim starts and ends outside white space. *)
Lemma trim_head s c r : trim s = c :: r → isWhiteSpace c = false.
Proof.
  unfold trim, trimEnd. intros E.
  destruct (dropWhile_suffix isWhiteSpace (reverse (trimStart s))) as [post E'].
  apply (f_equal reverse) in E'. rewrite reverse_involutive, reverse_app, E in E'.
  unfold trimStart in E'. simpl in E'. by apply dropWhile_head in E'.
Qed.

Lemma trim_last s c : last (trim s) = Some c → isWhiteSpace c = false.
Proof.
  unfold trim, trimEnd. rewrite last_reverse.
  destruct (dropWhile isWhiteSpace (reverse (trimStart s))) as [|b r] eqn:E; [done |].
  intros [= <-]. by apply dropWhile_head in E.
Qed.

Lemma dropWhile_keeps f pre t post c r :
  t = c :: r → f c = false →
  ∃ pre', dropWhile f (pre ++ t ++ post) = pre' ++ t ++ post.
Proof.
  intros -> Hc. induction pre as [|b pre [pre' IH]]; simpl.
  - exists []. by rewrite Hc.
  - destruct (f b); [by exists pre' | by exists (b :: pre)].
Qed.

(** A string with no white space at its ends that occurs in a text occurs in
    the trimmed text. *)
Lemma substringOf_trim t s :
  (∀ c r, t = c :: r → isWhiteSpace c = false) →
  (∀ c, last t = Some c → isWhiteSpace c = false) →
  substringOf t s → substringOf t (trim s).
Proof.
  intros Hhead Hlast (pre & post & ->).
  destruct t as [|c r]; [by exists [], (trim (pre ++ [] ++ post)) |].
  unfold trim, trimEnd, trimStart.
  destruct (dropWhile_keeps isWhiteSpace pre (c :: r) post c r eq_refl (Hhead c r eq_refl))
    as [pre' ->].
  rewrite !reverse_app.
  destruct (reverse (c :: r)) as [|c' r'] eqn:E.
  { apply (f_equal length) in E. rewrite length_reverse in E. done. }
  assert (isWhiteSpace c' = false) as Hc'.
  { apply Hlast. rewrite <- (reverse_involutive (c :: r)), E, last_reverse. done. }
  rewrite <- app_assoc.
  destruct (dropWhile_keeps isWhiteSpace (reverse post) (c' :: r') (reverse pre') c' r'
              eq_refl Hc') as [post' ->].
  rewrite !reverse_app, reverse_involutive, <- E, reverse_involutive.
  exists pre', (reverse post'). by rewrite <- app_assoc.
Qed.

Lemma spacesApart_weaken s : spacesApart true s = true → spacesApart false s = true.
Proof. destruct s as [|c r]; simpl; [done |]. by destruct (c =? space). Qed.

Lemma spacesApart_app_r b pre s : spacesApart b (pre ++ s) = true → spacesApart false s = true.
Proof.
  revert b; induction pre as [|c pre IH]; intros b; simpl.
  - destruct b; [apply spacesApart_weaken | done].
  - destruct (c =? space); [|apply IH]. intros [_ H]%andb_true_iff. by apply (IH true).
Qed.

Lemma spacesApart_app_l b s post : spacesApart b (s ++ post) = true → spacesApart b s = true.
Proof.
  revert b; induction s as [|c s IH]; intros b; simpl; [done |].
  destruct (c =? space); [|apply IH].
  intros [-> H]%andb_true_iff. by apply IH in H.
Qed.

Lemma spacesApart_substringOf p s :
  substringOf p s → spacesApart false s = true → spacesApart false p = true.
Proof.
  intros (pre & post & ->) H. apply spacesApart_app_r in H.
  by apply spacesApart_app_l in H.
Qed.

Lemma collapseFrom_spacesApart b s : spacesApart b (collapseFrom b s) = true.
Proof.
  revert b; induction s as [|c s IH]; intros b; simpl; [done |].
  destruct (isWhiteSpace c) eqn:E.
  - destruct b; [apply IH |]. simpl. apply IH.
  - simpl. destruct (c =? space) eqn:Ec; [|apply IH].
    apply N.eqb_eq in Ec. subst c. by vm_compute in E.
Qed.

(** Collapsing a concatenation: the second part is collapsed on its own, from
    one of the two states. *)
Lemma collapseFrom_app b s t :
  ∃ b', collapseFrom b (s ++ t) = collapseFrom b s ++ collapseFrom b' t.
Proof.
  revert b; induction s as [|c s IH]; intros b; simpl; [by exists b |].
  destruct (isWhiteSpace c).
  - destruct (IH true) as [b' ->]. destruct b; by exists b'.
  - destruct (IH false) as [b' ->]. by exists b'.
Qed.

Lemma trim_collapseFrom b s : trim (collapseFrom b s) = trim (collapseWhiteSpace s).
Proof.
  destruct b; [|done]. unfold collapseWhiteSpace.
  destruct s as [|c s]; simpl; [done |].
  by destruct (isWhiteSpace c).
Qed.
End NormalizedText.

Section MatcherMore.
Variable toLowerCase : jsstring -> jsstring.
Implicit Types (resume csv skill before after : jsstring).

Lemma normalize_spacesApart resume :
  spacesApart false (normalize toLowerCase resume) = true.
Proof.
  unfold normalize. eapply spacesApart_substringOf; [apply trim_substringOf |].
  apply collapseFrom_spacesApart.
Qed.

Lemma parseSkills_trimmed csv skill :
  skill ∈ parseSkills toLowerCase csv → ∃ tok, skill = trim tok ∧ skill ≠ [].
Proof.
  unfold parseSkills. rewrite list_elem_of_filter, list_elem_of_In, in_map_iff.
  intros (Hlen & tok & <- & _). exists tok. split; [done |].
  intros E. rewrite E in Hlen. simpl in Hlen. lia.
Qed.

(** A matched skill is made of words of a-z and 0-9 with single spaces
    between them: a required skill that holds a tab, a no-break space or two
    spaces in a row is never found, whatever the resume. *)
Theorem matched_skill_is_words_with_single_spaces resume csv skill :
  skill ∈ matchedSkills (matchResumeToJob toLowerCase resume csv) →
  skill ≠ []
  ∧ Forall (fun c => isLower c = true ∨ isDigit c = true ∨ c = space) skill
  ∧ spacesApart false skill = true
  ∧ head skill ≠ Some space ∧ last skill ≠ Some space.
Proof.
  intros [Hin Hinc]%elem_of_matchedSkills.
  destruct (parseSkills_trimmed csv skill Hin) as (tok & Etok & Hne).
  split; [done |]. split; [|split; [|split]].
  - apply Forall_forall. intros c Hc.
    destruct (normalize_alphabet toLowerCase resume c) as [?|[?|[?|Hcomma]]]; auto.
    + by apply (includes_elem_of _ skill).
    + subst c. by destruct (parseSkills_no_comma toLowerCase csv skill Hin).
  - apply includes_substring in Hinc.
    eapply spacesApart_substringOf; [exact Hinc | apply normalize_spacesApart].
  - destruct skill as [|c r] eqn:E; [done |]. simpl. intros [= ->].
    symmetry in Etok. by apply trim_head in Etok.
  - intros Hlast. rewrite Etok in Hlast. by apply trim_last in Hlast.
Qed.

(** The normalized resume occurs in the normalized text of the resume with
    more text around it. *)
Lemma normalize_context before resume after :
  toLowerCase (before ++ resume ++ after)
    = toLowerCase before ++ toLowerCase resume ++ toLowerCase after →
  substringOf (normalize toLowerCase resume)
              (normalize toLowerCase (before ++ resume ++ after)).
Proof.
  intros Hlow. unfold normalize. rewrite Hlow. unfold replaceSymbols.
  rewrite !map_app. unfold collapseWhiteSpace at 2.
  destruct (collapseFrom_app false
              (map (fun c => if keptByNormalize c then c else space) (toLowerCase before))
              (map (fun c => if keptByNormalize c then c else space) (toLowerCase resume)
               ++ map (fun c => if keptByNormalize c then c else space) (toLowerCase after)))
    as [b1 ->].
  destruct (collapseFrom_app b1
              (map (fun c => if keptByNormalize c then c else space) (toLowerCase resume))
              (map (fun c => if keptByNormalize c then c else space) (toLowerCase after)))
    as [b2 ->].
  rewrite <- (trim_collapseFrom b1).
  apply substringOf_trim.
  - intros c r. apply trim_head.
  - intros c. apply trim_last.
  - apply substringOf_app_l, substringOf_app_r, trim_substringOf.
Qed.

Lemma length_filter_mono (P Q : jsstring -> Prop)
    `{!∀ x, Decision (P x)} `{!∀ x, Decision (Q x)} (l : list jsstring) :
  (∀ x, P x → Q x) → (length (filter P l) ≤ length (filter Q l))%nat.
Proof.
  intros Himp. induction l as [|x l IH]; [done |]. rewrite !filter_cons.
  destruct (decide (P x)) as [HP|HP].
  - rewrite decide_True by auto. simpl. lia.
  - destruct (decide (Q x)); simpl; lia.
Qed.

(** More text around a resume never loses a matched skill: what is matched
    for the resume is matched for the longer text, what is missing for the
    longer text was missing for the resume, and the number of matched skills
    does not go down. *)
Theorem more_resume_text_keeps_matched_skills before resume after csv :
  toLowerCase (before ++ resume ++ after)
    = toLowerCase before ++ toLowerCase resume ++ toLowerCase after →
  (∀ skill, skill ∈ matchedSkills (matchResumeToJob toLowerCase resume csv) →
            skill ∈ matchedSkills
                      (matchResumeToJob toLowerCase (before ++ resume ++ after) csv))
  ∧ (∀ skill, skill ∈ missingSkills
                        (matchResumeToJob toLowerCase (before ++ resume ++ after) csv) →
              skill ∈ missingSkills (matchResumeToJob toLowerCase resume csv))
  ∧ (length (matchedSkills (matchResumeToJob toLowerCase resume csv))
     ≤ length (matchedSkills
                 (matchResumeToJob toLowerCase (before ++ resume ++ after) csv)))%nat.
Proof.
  intros Hlow.
  assert (∀ skill, includes (normalize toLowerCase resume) skill = true →
                   includes (normalize toLowerCase (before ++ resume ++ after)) skill = true)
    as Hmono.
  { intros skill. rewrite !includes_substring. intros H.
    eapply substringOf_trans; [exact H | by apply normalize_context]. }
  split; [|split].
  - intros skill. rewrite !elem_of_matchedSkills. intros [? ?]. auto.
  - intros skill. rewrite !elem_of_missingSkills. intros [? E]. split; [done |].
    destruct (includes (normalize toLowerCase resume) skill) eqn:E'; [|done].
    apply Hmono in E'. congruence.
  - rewrite !matchedSkills_filter. by apply length_filter_mono.
Qed.
End MatcherMore.

Lemma matched_skill_is_words_with_single_spaces_witness :
  js "node js" ∈ matchedSkills
                   (matchResumeToJob toLowerCaseAscii (js "Node.js and React") (js "Node JS, C#"))
  ∧ spacesApart false (js "node js") = true.
Proof.
  assert (js "node js" ∈ matchedSkills
            (matchResumeToJob toLowerCaseAscii (js "Node.js and React") (js "Node JS, C#")))
    as H by by_evaluation.
  split; [exact H |].
  by destruct (matched_skill_is_words_with_single_spaces toLowerCaseAscii _ _ _ H)
    as (_ & _ & ? & _).
Defined.

Lemma more_resume_text_keeps_matched_skills_witness :
  js "react" ∈ matchedSkills
                 (matchResumeToJob toLowerCaseAscii
                    (js "Summary: " ++ js "I use React" ++ js " daily") (js "React, Node")).
Proof.
  destruct (more_resume_text_keeps_matched_skills toLowerCaseAscii
              (js "Summary: ") (js "I use React") (js " daily") (js "React, Node"))
    as (H & _); [reflexivity |].
  apply H. by_evaluation.
Defined.

(* ===================================================================== *)
(** * Job management *)
(* ===================================================================== *)

Section StoreFacts.
Context {A : Type}.
Implicit Types (docs : list (jsstring * A)) (id : jsstring).

Lemma getDoc_app docs id newId d :
  getDoc (docs ++ [(newId, d)]) id
  = match getDoc docs id with
    | Some x => Some x
    | None => if decide (newId = id) then Some d else None
    end.
Proof.
  induction docs as [|[i x] docs IH]; simpl; [done |].
  destruct (decide (i = id)); [done | apply IH].
Qed.

Lemma getDoc_without docs id gone :
  getDoc (filter (fun d => d.1 ≠ gone) docs) id
  = if decide (id = gone) then None else getDoc docs id.
Proof.
  induction docs as [|[i x] docs IH]; simpl; [by case_decide |].
  rewrite filter_cons. simpl. destruct (decide (i ≠ gone)) as [Hi|Hi]; simpl.
  - rewrite IH. repeat case_decide; congruence.
  - apply dec_stable in Hi. subst i. rewrite IH.
    repeat case_decide; congruence.
Qed.

Lemma getDoc_elem_of docs id d : getDoc docs id = Some d → (id, d) ∈ docs.
Proof.
  induction docs as [|[i x] docs IH]; simpl; [done |].
  case_decide; [intros [= <-]; subst; by left | intros ?; right; by apply IH].
Qed.
End StoreFacts.

Section JobFacts.
Variable toLowerCase : jsstring -> jsstring.
Implicit Types (db : Db) (req : JobRequest).

(** A request without a title or without a recruiter id is answered 400 and
    stores nothing.  Otherwise the job is stored under the new id: it answers
    201 with the job, the job can then be fetched by that id, is listed among
    its recruiter's jobs and among all jobs beside the jobs there were, and
    every other job, every recruiter's other jobs, the resumes and the users
    are as before. *)
Theorem posted_job_is_stored_and_listed db req newId :
  getDoc (jobs db) newId = None →
  (truthy (postTitle req) = None ∨ truthy (postRecruiterId req) = None →
     postJob db req newId = (JobsMessage 400 (js "Missing required job fields."), db))
  ∧ (∀ jobTitle rid,
       truthy (postTitle req) = Some jobTitle → truthy (postRecruiterId req) = Some rid →
       ∃ job db',
         postJob db req newId = (JobCreated newId job, db')
         ∧ title job = jobTitle ∧ recruiterId job = rid
         ∧ company job = postCompany req ∧ description job = postDescription req
         ∧ getJob db' newId = JobFound newId job
         ∧ (∀ other, other ≠ newId → getJob db' other = getJob db other)
         ∧ (∃ mine, myJobs db' rid = JobsListed mine ∧ (newId, job) ∈ mine)
         ∧ (∀ r, r ≠ rid → myJobs db' r = myJobs db r)
         ∧ (∃ everyJob, allJobs db' = JobsListed everyJob
                        ∧ ∀ d, d ∈ everyJob ↔ d = (newId, job) ∨ d ∈ jobs db)
         ∧ resumes db' = resumes db ∧ users db' = users db).
Proof.
  intros Hfresh. split.
  - unfold postJob. intros [-> | ->]; [done |]. by destruct (truthy (postTitle req)).
  - intros jobTitle rid Ht Hr. unfold postJob. rewrite Ht, Hr.
    eexists _, _. split; [reflexivity |]. simpl.
    repeat split.
    + unfold getJob. simpl. rewrite getDoc_app, Hfresh. by rewrite decide_True.
    + intros other Hother. unfold getJob. simpl. rewrite getDoc_app.
      destruct (getDoc (jobs db) other); [done |]. by rewrite decide_False.
    + eexists. split; [reflexivity |]. simpl.
      rewrite filter_app, elem_of_app. right.
      rewrite filter_cons, decide_True by done. by left.
    + intros r Hne. unfold myJobs. simpl. f_equal.
      rewrite filter_app, filter_cons, decide_False by (simpl; congruence).
      by rewrite filter_nil, app_nil_r.
    + eexists. split; [reflexivity |]. intros d. cbn [jobs].
      rewrite elem_of_app, list_elem_of_singleton. tauto.
Qed.

(** Deleting a job always answers 200.  Afterwards the job cannot be fetched,
    and the match and the applicants endpoints answer "Job not found" for it
    without invoking the matcher; every other job, the resumes and the users
    are as before, and deleting once more changes nothing. *)
Theorem deleted_job_is_gone db jobId uid :
  (deleteJob db jobId).1 = JobsMessage 200 (js "Job successfully deleted.")
  ∧ getJob (deleteJob db jobId).2 jobId = JobsMessage 404 (js "Job not found.")
  ∧ (∀ other, other ≠ jobId → getJob (deleteJob db jobId).2 other = getJob db other)
  ∧ Eff.run (applicantsHandler toLowerCase (deleteJob db jobId).2 jobId)
    = (inr jobNotFound, [])
  ∧ Eff.run (matchHandler toLowerCase (deleteJob db jobId).2 jobId uid)
    = (inr jobNotFound, [])
  ∧ resumes (deleteJob db jobId).2 = resumes db
  ∧ users (deleteJob db jobId).2 = users db
  ∧ deleteJob (deleteJob db jobId).2 jobId = deleteJob db jobId.
Proof.
  assert (getDoc (jobs (deleteJob db jobId).2) jobId = None) as Hgone.
  { simpl. rewrite getDoc_without. by rewrite decide_True. }
  split; [done |]. split; [|split; [|split; [|split; [|split; [|split]]]]]; try done.
  - unfold getJob. by rewrite Hgone.
  - intros other Hother. unfold getJob. simpl. rewrite getDoc_without.
    by rewrite decide_False.
  - unfold Eff.run, applicantsHandler, Eff.tryCatch. by rewrite Hgone.
  - unfold Eff.run, matchHandler, Eff.tryCatch. by rewrite Hgone.
  - unfold deleteJob. simpl. do 2 f_equal.
    induction (jobs db) as [|[i d] l IH]; [done |].
    rewrite filter_cons. simpl. destruct (decide (i ≠ jobId)); [|done].
    rewrite !filter_cons. simpl. rewrite decide_True by done. by rewrite IH.
Qed.
End JobFacts.

(* ===================================================================== *)
(** * Jobs without skills, and what the ranking answers *)
(* ===================================================================== *)

Section BlankSkills.
Variable toLowerCase : jsstring -> jsstring.
Implicit Types (db : Db) (csv resume : jsstring).

Abbreviation separator := (fun c : N => c = comma ∨ isWhiteSpace c = true).
Abbreviation perfectMatch :=
  {| matchScore := 100; matchedSkills := []; missingSkills := [] |}.

Lemma split_separators s :
  Forall separator s → Forall (Forall (fun c => isWhiteSpace c = true)) (split comma s).
Proof.
  induction 1 as [|c s Hc _ IH]; simpl; [by repeat constructor |].
  destruct (c =? comma) eqn:E; [by constructor |].
  apply N.eqb_neq in E. destruct Hc as [?|Hc]; [done |].
  destruct (split comma s) as [|tok toks]; [by repeat constructor |].
  apply Forall_cons in IH as [? ?]. by repeat constructor.
Qed.

Lemma parseSkills_separators csv :
  Forall separator (toLowerCase csv) → parseSkills toLowerCase csv = [].
Proof.
  intros H%split_separators. unfold parseSkills.
  induction H as [|tok toks Htok _ IH]; [done |].
  cbn [map]. rewrite filter_cons. apply trim_nil in Htok. rewrite Htok.
  by rewrite decide_False by (simpl; lia).
Qed.

Lemma separator_not_upper c : separator c → isUpper c = false.
Proof.
  intros [-> | H]; [done |].
  destruct (isUpper c) eqn:E; [|done]. exfalso.
  unfold isUpper in E. apply andb_true_iff in E as [?%N.leb_le ?%N.leb_le].
  unfold isWhiteSpace in H.
  repeat (apply orb_true_iff in H as [H|H]);
    repeat (apply andb_true_iff in H as [?%N.leb_le ?%N.leb_le]);
    try apply N.eqb_eq in H; lia.
Qed.

Lemma lowered_separators csv :
  lowersAscii toLowerCase → forallb isAscii csv = true →
  Forall separator csv → Forall separator (toLowerCase csv).
Proof.
  intros Hlow Hascii H. rewrite Hlow by done. unfold toLowerCaseAscii.
  induction H as [|c s Hc _ IH]; simpl; [constructor |].
  simpl in Hascii. apply andb_true_iff in Hascii as [_ Hascii].
  constructor; [|by apply IH].
  unfold lowerAscii. by rewrite (separator_not_upper c).
Qed.

Lemma matchResumeToJob_no_skills resume csv :
  parseSkills toLowerCase csv = [] → matchResumeToJob toLowerCase resume csv = perfectMatch.
Proof. intros E. unfold matchResumeToJob. rewrite E. by rewrite decide_True. Qed.

(** A skills string of nothing but commas and white space (the empty string
    too) requires nothing: every resume is a perfect match for it. *)
Theorem blank_skills_are_a_perfect_match csv :
  lowersAscii toLowerCase → forallb isAscii csv = true → Forall separator csv →
  ∀ resume, matchResumeToJob toLowerCase resume csv = perfectMatch.
Proof.
  intros Hlow Hascii Hsep resume.
  apply matchResumeToJob_no_skills, parseSkills_separators.
  by apply lowered_separators.
Qed.

Lemma applicantsHandler_200 db jobId ranked :
  (Eff.run (applicantsHandler toLowerCase db jobId)).1
    = inr (send 200 (ApplicantsBody ranked)) →
  ∃ job, getDoc (jobs db) jobId = Some job
         ∧ ranked = Array_sort byScoreDesc
                      (omap (entryOf toLowerCase (buildUsersMap (users db)) (skills job))
                            (resumes db)).
Proof.
  unfold Eff.run, applicantsHandler, Eff.tryCatch.
  destruct (getDoc (jobs db) jobId) as [job|]; [|done].
  unfold mbind, eff_bind, Eff.bind.
  destruct (scoreResumes _ _ _ _ _ _) as [[e|l] log'] eqn:E; [done |].
  apply scoreResumes_inv in E. simpl in *. intros [= <-]. subst l. by exists job.
Qed.

(** A job posted without skills (the field missing or empty) is stored with
    the empty skills string, so the match endpoint answers a perfect match to
    every candidate with a stored resume, and whenever the applicants
    endpoint answers a ranking for the job, every entry in it has the score
    100 and no matched skill. *)
Theorem job_posted_without_skills_matches_everyone db req newId jobTitle rid :
  lowersAscii toLowerCase →
  getDoc (jobs db) newId = None →
  truthy (postTitle req) = Some jobTitle → truthy (postRecruiterId req) = Some rid →
  truthy (postSkills req) = None →
  (∀ uid text,
      storedResumeText db uid = Some text →
      Eff.run (matchHandler toLowerCase (postJob db req newId).2 newId uid)
      = (inr (send 200 (MatchBody perfectMatch)), [MatchInvoked (Some text) []]))
  ∧ (∀ ranked a,
      (Eff.run (applicantsHandler toLowerCase (postJob db req newId).2 newId)).1
        = inr (send 200 (ApplicantsBody ranked)) →
      a ∈ ranked → applicantScore a = 100%Z ∧ applicantSkills a = []).
Proof.
  intros Hlow Hfresh Ht Hr Hs.
  assert (∃ job, getDoc (jobs (postJob db req newId).2) newId = Some job ∧ skills job = [])
    as (job & Hjob & Hskills).
  { unfold postJob. rewrite Ht, Hr, Hs. simpl. rewrite getDoc_app, Hfresh.
    rewrite decide_True by done. by eexists. }
  assert (resumes (postJob db req newId).2 = resumes db) as Hres.
  { unfold postJob. by rewrite Ht, Hr. }
  assert (∀ resume, matchResumeToJob toLowerCase resume [] = perfectMatch) as Hperfect.
  { intros resume. apply matchResumeToJob_no_skills, parseSkills_separators.
    rewrite Hlow by done. constructor. }
  split.
  - intros uid text Htext.
    unfold Eff.run, matchHandler, Eff.tryCatch. rewrite Hjob.
    unfold storedResumeText in *. rewrite Hres, Htext.
    unfold mbind, eff_bind, Eff.bind, callMatch. simpl.
    by rewrite Hskills, Hperfect.
  - intros ranked a (job' & Hjob' & ->)%applicantsHandler_200 Ha.
    rewrite Hjob in Hjob'. injection Hjob' as <-.
    rewrite (Array_sort_perm applicantScore) in Ha.
    apply list_elem_of_omap in Ha as (d & _ & Hd).
    apply entryOf_Some in Hd as (_ & _ & text & _ & -> & ->).
    by rewrite Hskills, Hperfect.
Qed.
End BlankSkills.

Lemma blank_skills_are_a_perfect_match_witness :
  matchResumeToJob toLowerCaseAscii (js "I use React") (js " , ,, ")
  = {| matchScore := 100; matchedSkills := []; missingSkills := [] |}.
Proof.
  apply (blank_skills_are_a_perfect_match toLowerCaseAscii (js " , ,, ")
           lowersAscii_instance eq_refl).
  repeat constructor; by_evaluation.
Defined.

(* ===================================================================== *)
(** * The uploaded file: disk, store and download *)
(* ===================================================================== *)

Section DiskFacts.
Variable pdf : list Byte.byte -> jsstring + jsstring.
Variable mammoth_extractRawText : list Byte.byte -> jsstring + jsstring.
Implicit Types (db : Db) (disk : Disk) (req : UploadRequest).

(** An upload whose extraction fails leaves no trace: the file written under
    a new path is removed again, so the disk and the store are exactly as
    before, and the candidate's earlier resume is still served. *)
Theorem failed_upload_leaves_disk_and_store_unchanged
    db disk req uid path mime content e :
  upUserId req = Some uid → uid ≠ [] → upFile req = Some (path, mime, content) →
  disk !! path = None →
  extractText pdf mammoth_extractRawText content mime = Failed e →
  uploadToDisk pdf mammoth_extractRawText disk db req
  = (send 500 (Message (js "Processing failed: " ++ errorMessage e)), db, disk).
Proof.
  intros Huid Hne Hfile Hfresh Hfail. destruct uid as [|u id]; [done |].
  unfold uploadToDisk, uploadHandler. rewrite Huid, Hfile, Hfail.
  by rewrite delete_insert_id.
Qed.

(** After a successful upload the download endpoint serves the uploaded
    bytes for the candidate, always as application/pdf, whatever the declared
    media type; the extracted text is the stored resume text, and every other
    file on the disk is still there. *)
Theorem uploaded_resume_is_served_by_download
    db disk req uid path mime content text :
  upUserId req = Some uid → uid ≠ [] → upFile req = Some (path, mime, content) →
  path ≠ [] →
  extractText pdf mammoth_extractRawText content mime = Extracted text →
  ∃ db' disk',
    uploadToDisk pdf mammoth_extractRawText disk db req
    = (send 200 (Message (js "Resume uploaded and processed successfully.")), db', disk')
    ∧ downloadHandler disk' db' uid = FileStreamed (js "application/pdf") content
    ∧ storedResumeText db' uid = Some text
    ∧ (∀ other, other ≠ path → disk' !! other = disk !! other).
Proof.
  intros Huid Hne Hfile Hpath Hok. destruct uid as [|u id]; [done |].
  unfold uploadToDisk, uploadHandler. rewrite Huid, Hfile, Hok.
  eexists _, _. split; [reflexivity |]. split; [|split].
  - unfold downloadHandler. simpl. rewrite getDoc_setResume. simpl.
    destruct path as [|c p]; [done |]. by rewrite lookup_insert_eq.
  - unfold storedResumeText. simpl. rewrite getDoc_setResume. simpl.
    apply extractText_Extracted in Hok. by destruct text.
  - intros other Hother. by rewrite lookup_insert_ne.
Qed.

(** An upload that names no user is answered 400, yet the file written for
    it stays on the disk: nothing removes it, the store is unchanged, and no
    download serves it or is changed by it, as no resume document names its
    path. *)
Theorem upload_without_user_leaves_an_unreachable_file
    db disk req path mime content :
  truthy (upUserId req) = None → upFile req = Some (path, mime, content) →
  (∀ d, d ∈ resumes db → filePath d.2 ≠ path) →
  ∃ disk',
    uploadToDisk pdf mammoth_extractRawText disk db req
    = (send 400 (Message (js "User ID or file is missing.")), db, disk')
    ∧ disk' !! path = Some content
    ∧ (∀ other, other ≠ path → disk' !! other = disk !! other)
    ∧ ∀ uid, downloadHandler disk' db uid = downloadHandler disk db uid.
Proof.
  intros Huid Hfile Hunnamed. exists (<[path := content]> disk).
  split; [|split; [|split]].
  - unfold uploadToDisk, uploadHandler. rewrite Hfile.
    destruct (upUserId req) as [[|u id]|]; done.
  - apply lookup_insert_eq.
  - intros other Hother. by rewrite lookup_insert_ne.
  - intros uid. unfold downloadHandler.
    destruct (getDoc (resumes db) uid) as [d|] eqn:E; [|done].
    apply getDoc_elem_of, Hunnamed in E. simpl in E.
    destruct (filePath d) as [|c p]; [done |]. by rewrite lookup_insert_ne.
Qed.

End DiskFacts.

(* ===================================================================== *)
(** * The gateway: one post per request, and what comes back *)
(* ===================================================================== *)

Section GatewayMore.
Variable JSON_parse : jsstring -> option Json.
Variable fetchGemini : jsstring -> jsstring -> GeminiReply.
Variable env : Env.
Implicit Types (db : Db) (req : AiRequest) (log : list Event).

Abbreviation posted systemPrompt userQuery := (GeminiPosted systemPrompt userQuery).

(** Without an API key (and outside canvas mode) nothing is posted and the
    call throws.  With a key the call posts exactly once, and returns a text
    exactly when the collaborator's reply holds that text and it is not
    empty; there is no second attempt. *)
Theorem generate_posts_once_and_returns_the_reply systemPrompt userQuery log :
  (GEMINI_API_KEY env = [] → CANVAS_MODE env = false →
     generateGeminiContent fetchGemini env systemPrompt userQuery log
     = (inl (Error (js "GEMINI_API_KEY is not set.")), log))
  ∧ (GEMINI_API_KEY env ≠ [] ∨ CANVAS_MODE env = true →
     ∃ outcome,
       generateGeminiContent fetchGemini env systemPrompt userQuery log
       = (outcome, log ++ [posted systemPrompt userQuery])
       ∧ ∀ text, outcome = inr text
                 ↔ fetchGemini systemPrompt userQuery = Replied (Some text) ∧ text ≠ []).
Proof.
  unfold generateGeminiContent. split.
  - intros -> ->. by rewrite bool_decide_eq_true_2.
  - intros Hkey.
    assert (bool_decide (GEMINI_API_KEY env = []) && negb (CANVAS_MODE env) = false) as ->.
    { destruct Hkey as [?| ->]; [by rewrite bool_decide_eq_false_2 | apply andb_false_r]. }
    unfold mbind, eff_bind, Eff.bind, Eff.emit.
    destruct (fetchGemini systemPrompt userQuery) as [|[[|c raw]|]];
      eexists; (split; [reflexivity |]); intros text; split; try done.
    + by intros [[=] _].
    + by intros [[= <-] ?].
    + by intros [= <-].
    + by intros [[= <-] _].
    + by intros [[=] _].
Qed.

Lemma generate_run systemPrompt userQuery log :
  ∃ outcome log',
    generateGeminiContent fetchGemini env systemPrompt userQuery log = (outcome, log')
    ∧ (log' = log ∨ log' = log ++ [posted systemPrompt userQuery])
    ∧ ∀ text, outcome = inr text →
              fetchGemini systemPrompt userQuery = Replied (Some text) ∧ text ≠ []
              ∧ log' = log ++ [posted systemPrompt userQuery].
Proof.
  destruct (generateGeminiContent fetchGemini env systemPrompt userQuery log)
    as [outcome log'] eqn:E.
  exists outcome, log'. split; [done |]. split.
  - unfold generateGeminiContent in E.
    destruct (bool_decide _ && negb _); [left; by injection E |].
    unfold mbind, eff_bind, Eff.bind, Eff.emit in E. right.
    by destruct (fetchGemini systemPrompt userQuery) as [|[[|c raw]|]]; injection E.
  - intros text ->. by apply generate_returns in E.
Qed.

(** The cover-letter and the interview endpoints, for a candidate with stored
    resume text: each always answers (nothing is thrown on), after at most one
    post; the answer is either 200 with the collaborator's non-empty reply to
    the prompt built from the request and the stored text, unchanged, or 500
    with one fixed message, whatever went wrong. *)
Theorem letter_and_questions_are_the_reply_or_a_fixed_failure db req uid resumeText :
  reqUserId req = Some uid → uid ≠ [] → storedResumeText db uid = Some resumeText →
  (∃ response log,
      Eff.run (coverLetterHandler fetchGemini env db req) = (inr response, log)
      ∧ (length log ≤ 1)%nat
      ∧ (response = send 500 (Message (js "Failed to generate cover letter via AI."))
         ∨ ∃ text, response = send 200 (TextBody text) ∧ text ≠ []
                   ∧ fetchGemini coverLetterSystemPrompt
                       (coverLetterUserQuery req resumeText) = Replied (Some text)
                   ∧ log = [posted coverLetterSystemPrompt
                              (coverLetterUserQuery req resumeText)]))
  ∧ (∃ response log,
      Eff.run (interviewHandler fetchGemini env db req) = (inr response, log)
      ∧ (length log ≤ 1)%nat
      ∧ (response = send 500 (Message (js "Failed to generate interview questions via AI."))
         ∨ ∃ text, response = send 200 (TextBody text) ∧ text ≠ []
                   ∧ fetchGemini interviewSystemPrompt
                       (interviewUserQuery req resumeText) = Replied (Some text)
                   ∧ log = [posted interviewSystemPrompt
                              (interviewUserQuery req resumeText)])).
Proof.
  intros Huid Hne Hresume. destruct uid as [|u id]; [done |].
  unfold Eff.run, coverLetterHandler, interviewHandler, Eff.tryCatch.
  rewrite Huid, Hresume. unfold mbind, eff_bind, Eff.bind. split.
  - destruct (generate_run coverLetterSystemPrompt (coverLetterUserQuery req resumeText) [])
      as (outcome & log' & -> & Hlog & Hout).
    destruct outcome as [e|text].
    + eexists _, _. split; [reflexivity |]. split; [|by left].
      destruct Hlog as [-> | ->]; simpl; lia.
    + destruct (Hout text eq_refl) as (Hreply & Htext & ->).
      eexists _, _. split; [reflexivity |]. split; [simpl; lia |].
      right. by exists text.
  - destruct (generate_run interviewSystemPrompt (interviewUserQuery req resumeText) [])
      as (outcome & log' & -> & Hlog & Hout).
    destruct outcome as [e|text].
    + eexists _, _. split; [reflexivity |]. split; [|by left].
      destruct Hlog as [-> | ->]; simpl; lia.
    + destruct (Hout text eq_refl) as (Hreply & Htext & ->).
      eexists _, _. split; [reflexivity |]. split; [simpl; lia |].
      right. by exists text.
Qed.

(** The recommendation endpoint, for a candidate with stored resume text and a
    non-empty job list: a reply that parses to an array is sent back entry
    for entry after one post, and a collaborator that gives no text is
    answered 500 with a fixed message. *)
Theorem array_reply_is_sent_back_and_no_reply_is_a_failure
    db req u id job others resumeText :
  reqUserId req = Some (u :: id) → reqAllJobs req = Some (job :: others) →
  storedResumeText db (u :: id) = Some resumeText →
  (∀ raw ids,
      GEMINI_API_KEY env ≠ [] ∨ CANVAS_MODE env = true →
      fetchGemini suggestionsSystemPrompt
        (suggestionsUserQuery resumeText (job :: others)) = Replied (Some raw) →
      raw ≠ [] → JSON_parse (trim raw) = Some (JArray ids) →
      Eff.run (suggestionsHandler JSON_parse fetchGemini env db req)
      = (inr (send 200 (SuggestionsBody ids)),
         [posted suggestionsSystemPrompt (suggestionsUserQuery resumeText (job :: others))]))
  ∧ ((∀ raw, fetchGemini suggestionsSystemPrompt
               (suggestionsUserQuery resumeText (job :: others)) = Replied (Some raw) →
             raw = []) →
     (Eff.run (suggestionsHandler JSON_parse fetchGemini env db req)).1
     = inr (send 500 (Message (js "Failed to fetch suggestions via AI.")))).
Proof.
  intros Huid Hjobs Hresume.
  unfold Eff.run, suggestionsHandler, Eff.tryCatch. rewrite Huid, Hjobs, Hresume.
  unfold mbind, eff_bind, Eff.bind. split.
  - intros raw ids Hkey Hreply Hraw Hparse.
    rewrite (generate_reply fetchGemini env _ _ _ raw) by done.
    unfold parseSuggestions. by rewrite Hparse.
  - intros Hnone.
    destruct (generate_run suggestionsSystemPrompt
                (suggestionsUserQuery resumeText (job :: others)) [])
      as (outcome & log' & -> & _ & Hout).
    destruct outcome as [e|text]; [done |].
    destruct (Hout text eq_refl) as (Hreply & Htext & _).
    by apply Hnone in Hreply.
Qed.
End GatewayMore.

(* ===================================================================== *)
(** * From the upload to the ranking *)
(* ===================================================================== *)

Section UploadThenRank.
Variable toLowerCase : jsstring -> jsstring.
Variable pdf : list Byte.byte -> jsstring + jsstring.
Variable mammoth_extractRawText : list Byte.byte -> jsstring + jsstring.
Implicit Types (db : Db) (req : UploadRequest).

Lemma elem_of_setResume (docs : list (jsstring * ResumeDoc)) uid doc d :
  d ∈ setResume docs uid doc → d ∈ docs ∨ d = (uid, doc).
Proof.
  unfold setResume. destruct (getDoc docs uid) as [d0|].
  - rewrite list_elem_of_In, in_map_iff. intros ([i x] & E & Hin%list_elem_of_In).
    simpl in E. case_decide; simplify_eq; auto.
  - rewrite elem_of_app, list_elem_of_singleton. tauto.
Qed.

(** A registered job seeker whose upload succeeds is ranked for every stored
    job: the applicants endpoint answers a ranking that holds an entry with
    the candidate's id and email and with the matcher's score and matched
    skills for the text just extracted (given that the documents of the other
    eligible candidates have their text). *)
Theorem uploaded_resume_is_ranked_with_its_score
    db req uid path mime content text userDetails jobId job :
  upUserId req = Some uid → uid ≠ [] → upFile req = Some (path, mime, content) →
  extractText pdf mammoth_extractRawText content mime = Extracted text →
  eligible (buildUsersMap (users db)) uid = Some userDetails →
  getDoc (jobs db) jobId = Some job →
  Forall (fun d => is_Some (resumeText d.2))
         (eligibleResumes (buildUsersMap (users db)) (resumes db)) →
  ∃ ranked a,
    (Eff.run (applicantsHandler toLowerCase
                (uploadHandler pdf mammoth_extractRawText db req).1.2 jobId)).1
      = inr (send 200 (ApplicantsBody ranked))
    ∧ a ∈ ranked
    ∧ userId a = uid ∧ applicantEmail a = email userDetails
    ∧ applicantScore a = matchScore (matchResumeToJob toLowerCase text (skills job))
    ∧ applicantSkills a = matchedSkills (matchResumeToJob toLowerCase text (skills job)).
Proof.
  intros Huid Hne Hfile Hok Hel Hjob Hdocs. destruct uid as [|u id]; [done |].
  unfold uploadHandler. rewrite Huid, Hfile, Hok. simpl.
  set (doc := {| resumeText := Some text; filePath := path |}).
  set (db' := {| jobs := jobs db;
                 resumes := setResume (resumes db) (u :: id) doc;
                 users := users db |}).
  assert (Forall (fun d => is_Some (resumeText d.2))
                 (eligibleResumes (buildUsersMap (users db')) (resumes db'))) as Hdocs'.
  { apply Forall_forall. intros d [Hd Hin]%list_elem_of_filter.
    apply elem_of_setResume in Hin as [Hin | ->]; [|by eexists].
    rewrite Forall_forall in Hdocs. apply Hdocs. by apply list_elem_of_filter. }
  exists (Array_sort byScoreDesc
            (omap (entryOf toLowerCase (buildUsersMap (users db')) (skills job)) (resumes db'))),
         {| userId := u :: id;
            applicantEmail := email userDetails;
            applicantScore := matchScore (matchResumeToJob toLowerCase text (skills job));
            applicantSkills := matchedSkills (matchResumeToJob toLowerCase text (skills job)) |}.
  split.
  { unfold Eff.run. by rewrite (applicantsHandler_ok toLowerCase db' jobId job []). }
  split; [|done].
  rewrite (Array_sort_perm applicantScore). apply list_elem_of_omap.
  exists (u :: id, doc). split.
  - apply getDoc_elem_of. apply getDoc_setResume.
  - unfold entryOf. simpl. by rewrite Hel.
Qed.
End UploadThenRank.

(* ===================================================================== *)
(** * The pages *)
(* ===================================================================== *)

Section Pages.
Variable toLowerCase : jsstring -> jsstring.
Implicit Types (db : Db) (s t csv : jsstring).

Lemma includes_nil s : includes s [] = true.
Proof. by destruct s. Qed.

Lemma filter_keeps_sorted (P : Applicant -> Prop) `{!∀ a, Decision (P a)}
    (l : list Applicant) :
  StronglySorted (fun a b => applicantScore b ≤ applicantScore a)%Z l →
  StronglySorted (fun a b => applicantScore b ≤ applicantScore a)%Z (filter P l).
Proof.
  induction 1 as [|a l Hl IH Ha]; [constructor |].
  rewrite filter_cons. case_decide; [|done].
  constructor; [done |]. apply Forall_forall. intros b [_ Hb]%list_elem_of_filter.
  rewrite Forall_forall in Ha. by apply Ha.
Qed.

(** ApplicantsPage.  Sorting the endpoint's answer again gives the answer
    itself; whatever the search term, the applicants shown are taken from the
    ranking in its order, so they are still in descending score; and the
    empty search term shows all of them. *)
Theorem page_keeps_the_ranking_of_the_endpoint db jobId ranked :
  (Eff.run (applicantsHandler toLowerCase db jobId)).1
    = inr (send 200 (ApplicantsBody ranked)) →
  sortedApplicants ranked = ranked
  ∧ (∀ searchTerm,
       filteredApplicants toLowerCase searchTerm (sortedApplicants ranked) `sublist_of` ranked
       ∧ StronglySorted (fun a b => applicantScore b ≤ applicantScore a)%Z
           (filteredApplicants toLowerCase searchTerm (sortedApplicants ranked)))
  ∧ (toLowerCase [] = [] →
     filteredApplicants toLowerCase [] (sortedApplicants ranked) = ranked).
Proof.
  intros (job & _ & ->)%applicantsHandler_200.
  set (pushed := omap _ _).
  pose proof (Array_sort_sorted applicantScore pushed) as Hsorted.
  assert (sortedApplicants (Array_sort byScoreDesc pushed) = Array_sort byScoreDesc pushed)
    as -> by (by apply (Array_sort_of_sorted applicantScore)).
  split; [done |]. split.
  - intros searchTerm. unfold filteredApplicants. split; [apply sublist_filter |].
    by apply filter_keeps_sorted.
  - intros Hnil. unfold filteredApplicants. rewrite Hnil.
    induction (Array_sort byScoreDesc pushed) as [|a l IH]; [done |].
    rewrite filter_cons, decide_True by apply includes_nil. by rewrite IH.
Qed.
End Pages.

Section SkillTags.
Variable toLowerCase : jsstring -> jsstring.
Implicit Types (s csv : jsstring) (c : N).

Lemma lowerAscii_comma c : (lowerAscii c =? comma) = (c =? comma).
Proof.
  unfold lowerAscii. destruct (isUpper c) eqn:E; [|done].
  unfold isUpper in E. apply andb_true_iff in E as [?%N.leb_le ?%N.leb_le].
  destruct (c =? comma) eqn:Ec.
  - apply N.eqb_eq in Ec. unfold comma in Ec. lia.
  - apply N.eqb_neq. unfold comma. lia.
Qed.

Lemma letters_not_whiteSpace c : (65 <= c)%N → (c <= 122)%N → isWhiteSpace c = false.
Proof.
  intros Hlo Hhi. unfold isWhiteSpace.
  repeat match goal with
         | |- context [(?a <=? ?b)%N] => destruct (N.leb_spec a b); try lia
         | |- context [(?a =? ?b)%N] => destruct (N.eqb_spec a b); try lia
         end; reflexivity.
Qed.

Lemma lowerAscii_whiteSpace c : isWhiteSpace (lowerAscii c) = isWhiteSpace c.
Proof.
  unfold lowerAscii. destruct (isUpper c) eqn:E; [|done].
  unfold isUpper in E. apply andb_true_iff in E as [Hlo%N.leb_le Hhi%N.leb_le].
  rewrite !letters_not_whiteSpace by lia. done.
Qed.

Lemma split_lowered s :
  split comma (toLowerCaseAscii s) = map toLowerCaseAscii (split comma s).
Proof.
  unfold toLowerCaseAscii. induction s as [|c s IH]; simpl; [done |].
  rewrite lowerAscii_comma, IH. destruct (c =? comma); [done |].
  by destruct (split comma s).
Qed.

Lemma dropWhile_lowered s :
  dropWhile isWhiteSpace (toLowerCaseAscii s) = toLowerCaseAscii (dropWhile isWhiteSpace s).
Proof.
  unfold toLowerCaseAscii. induction s as [|c s IH]; simpl; [done |].
  rewrite lowerAscii_whiteSpace. by destruct (isWhiteSpace c).
Qed.

Lemma reverse_lowered s : reverse (toLowerCaseAscii s) = toLowerCaseAscii (reverse s).
Proof.
  unfold toLowerCaseAscii. induction s as [|c s IH]; simpl; [done |].
  by rewrite !reverse_cons, map_app, IH.
Qed.

Lemma trim_lowered s : trim (toLowerCaseAscii s) = toLowerCaseAscii (trim s).
Proof.
  unfold trim, trimEnd, trimStart.
  by rewrite dropWhile_lowered, reverse_lowered, dropWhile_lowered, reverse_lowered.
Qed.

Lemma length_filter_lowered (l : list jsstring) :
  length (filter (fun skill : jsstring => (0 < length skill)%nat) (map toLowerCaseAscii l))
  = length (filter (fun skill : jsstring => (0 < length skill)%nat) l).
Proof.
  induction l as [|x l IH]; [done |]. cbn [map]. rewrite !filter_cons.
  assert (length (toLowerCaseAscii x) = length x) as -> by apply length_map.
  case_decide; simpl; by rewrite IH.
Qed.

(** JobDetailPage.  For a skills string of ASCII characters, the skills the
    matcher requires are the tags of the job page that are not empty, in
    lower case and in the same order: the matcher's N is the number of
    non-empty tags shown. *)
Theorem required_skills_are_the_nonempty_tags csv :
  lowersAscii toLowerCase → forallb isAscii csv = true →
  parseSkills toLowerCase csv
  = filter (fun skill : jsstring => (0 < length skill)%nat)
           (map toLowerCaseAscii (skillTags csv))
  ∧ length (parseSkills toLowerCase csv)
    = length (filter (fun tag : jsstring => (0 < length tag)%nat) (skillTags csv))
  ∧ ∀ resume,
      (length (matchedSkills (matchResumeToJob toLowerCase resume csv))
       + length (missingSkills (matchResumeToJob toLowerCase resume csv))
       = length (filter (fun tag : jsstring => (0 < length tag)%nat) (skillTags csv)))%nat.
Proof.
  intros Hlow Hascii.
  assert (parseSkills toLowerCase csv
          = filter (fun skill : jsstring => (0 < length skill)%nat)
                   (map toLowerCaseAscii (skillTags csv))) as E.
  { unfold parseSkills, skillTags. rewrite Hlow by done.
    rewrite split_lowered, !map_map. f_equal. apply map_ext. intros tok. apply trim_lowered. }
  split; [done |]. split.
  - rewrite E. apply length_filter_lowered.
  - intros resume. rewrite matchedSkills_filter, missingSkills_filter.
    rewrite (length_filter_split (includes (normalize toLowerCase resume))).
    rewrite E. apply length_filter_lowered.
Qed.
End SkillTags.

Section Uploader.
Variable pdf : list Byte.byte -> jsstring + jsstring.
Variable mammoth_extractRawText : list Byte.byte -> jsstring + jsstring.

(** ResumeUploader.  The page keeps a selected file exactly when the server
    would not refuse its media type as unsupported; a file the page refuses
    is dropped with a message, one it keeps is kept unchanged. *)
Theorem page_accepts_the_types_the_server_extracts (file : jsstring * list Byte.byte) :
  ((handleFileChange (Some file)).1 = Some file
   ↔ extractText pdf mammoth_extractRawText file.2 file.1 ≠ Failed UnsupportedFileType)
  ∧ ((handleFileChange (Some file)).1 = None
     ↔ extractText pdf mammoth_extractRawText file.2 file.1 = Failed UnsupportedFileType)
  ∧ ((handleFileChange (Some file)).1 = None → (handleFileChange (Some file)).2 ≠ []).
Proof.
  destruct file as [mime content]. unfold handleFileChange. simpl.
  assert (extractText pdf mammoth_extractRawText content mime = Failed UnsupportedFileType
          ↔ mime ∉ allowedTypes) as Hserver.
  { unfold allowedTypes. rewrite !not_elem_of_cons. split.
    - intros E. destruct (decide (mime = mimePdf)) as [->|H1].
      { rewrite extractText_pdf in E. destruct (pdf content); [done |]. by destruct (trim _). }
      destruct (decide (mime = mimeDocx)) as [->|H2].
      { rewrite extractText_docx in E.
        destruct (mammoth_extractRawText content); [done |]. by destruct (trim _). }
      destruct (decide (mime = mimeTxt)) as [->|H3].
      { rewrite extractText_txt in E. by destruct (trim _). }
      repeat split; try done. apply not_elem_of_nil.
    - intros (H1 & H2 & H3 & _). by apply extractText_unsupported. }
  rewrite Hserver. case_bool_decide as Hin; simpl.
  - split; [|split].
    + split; [intros _ Hout; by apply Hout | done].
    + split; [done | intros Hout; by destruct Hout].
    + done.
  - split; [|split].
    + split; [done | intros Hout; by destruct Hout].
    + done.
    + done.
Qed.
End Uploader.

(** JobBoardPage.getSnippet.  A snippet is never longer than the bound plus
    the three dots; a text within the bound is shown unchanged, a longer one
    is cut to the bound; and both start in the same way. *)
Theorem snippet_is_bounded (text : jsstring) (maxLength : nat) :
  text ≠ [] →
  (length (getSnippet (Some text) maxLength) ≤ maxLength + 3)%nat
  ∧ ((length text ≤ maxLength)%nat → getSnippet (Some text) maxLength = text)
  ∧ ((maxLength < length text)%nat →
       getSnippet (Some text) maxLength = take maxLength text ++ js "...")
  ∧ take maxLength (getSnippet (Some text) maxLength) = take maxLength text.
Proof.
  intros Hne. destruct text as [|c t]; [done |]. unfold getSnippet, truthy.
  destruct (maxLength <? length (c :: t))%nat eqn:E.
  - apply Nat.ltb_lt in E. split; [|split; [|split]].
    + rewrite length_app, length_take. simpl in *. lia.
    + lia.
    + done.
    + rewrite take_app_le by (rewrite length_take; lia). by rewrite take_take, Nat.min_id.
  - apply Nat.ltb_ge in E. split; [|split; [|split]]; try done; lia.
Qed.

(* ===================================================================== *)
(** * The properties above at the example store *)
(* ===================================================================== *)

Lemma posted_job_is_stored_and_listed_witness :
  ∃ job db',
    postJob exampleDb (examplePost (Some (js "Jest, Cypress"))) (js "j2")
    = (JobCreated (js "j2") job, db')
    ∧ skills job = js "Jest, Cypress"
    ∧ getJob db' (js "j2") = JobFound (js "j2") job.
Proof.
  destruct (posted_job_is_stored_and_listed toLowerCaseAscii exampleDb
              (examplePost (Some (js "Jest, Cypress"))) (js "j2") eq_refl) as [_ H].
  destruct (H (js "Tester") (js "r1") eq_refl eq_refl)
    as (job & db' & E & _ & _ & _ & _ & Hget & _).
  exists job, db'. split; [exact E |]. split; [|exact Hget].
  vm_compute in E. by injection E as <- _.
Defined.

Lemma job_posted_without_skills_matches_everyone_witness :
  Eff.run (matchHandler toLowerCaseAscii (postJob exampleDb (examplePost None) (js "j2")).2
             (js "j2") (js "u1"))
  = (inr (send 200 (MatchBody {| matchScore := 100; matchedSkills := [];
                                 missingSkills := [] |})),
     [MatchInvoked (Some (js "I use React")) []]).
Proof.
  destruct (job_posted_without_skills_matches_everyone toLowerCaseAscii exampleDb
              (examplePost None) (js "j2") (js "Tester") (js "r1")
              lowersAscii_instance eq_refl eq_refl eq_refl eq_refl) as [H _].
  exact (H (js "u1") (js "I use React") eq_refl).
Defined.

Lemma failed_upload_leaves_disk_and_store_unchanged_witness :
  uploadToDisk examplePdf exampleMammoth exampleDisk exampleDb
    (exampleUpload (Some (js "u1")) "image/png" "Hello World")
  = (send 500 (Message (js "Processing failed: Unsupported file type. Please use PDF, DOCX, or TXT.")),
     exampleDb, exampleDisk).
Proof.
  apply (failed_upload_leaves_disk_and_store_unchanged examplePdf exampleMammoth
           exampleDb exampleDisk _ (js "u1") (js "uploads/u1-2") (js "image/png")
           (bytesOf "Hello World") UnsupportedFileType);
    [reflexivity | done | reflexivity | by vm_compute | reflexivity].
Defined.

Lemma uploaded_resume_is_served_by_download_witness :
  ∃ db' disk',
    uploadToDisk examplePdf exampleMammoth exampleDisk exampleDb
      (exampleUpload (Some (js "u1")) "text/plain" "Node and React")
    = (send 200 (Message (js "Resume uploaded and processed successfully.")), db', disk')
    ∧ downloadHandler disk' db' (js "u1")
      = FileStreamed (js "application/pdf") (bytesOf "Node and React").
Proof.
  destruct (uploaded_resume_is_served_by_download examplePdf exampleMammoth
              exampleDb exampleDisk (exampleUpload (Some (js "u1")) "text/plain" "Node and React")
              (js "u1") (js "uploads/u1-2") (js "text/plain")
              (bytesOf "Node and React") (js "Node and React"))
    as (db' & disk' & E & Hserved & _);
    [reflexivity | done | reflexivity | done | by vm_compute |].
  by exists db', disk'.
Defined.

Lemma upload_without_user_leaves_an_unreachable_file_witness :
  ∃ disk',
    uploadToDisk examplePdf exampleMammoth exampleDisk exampleDb
      (exampleUpload None "text/plain" "Node and React")
    = (send 400 (Message (js "User ID or file is missing.")), exampleDb, disk')
    ∧ disk' !! js "uploads/u1-2" = Some (bytesOf "Node and React").
Proof.
  destruct (upload_without_user_leaves_an_unreachable_file examplePdf exampleMammoth
              exampleDb exampleDisk (exampleUpload None "text/plain" "Node and React")
              (js "uploads/u1-2") (js "text/plain") (bytesOf "Node and React"))
    as (disk' & E & Hfile & _); [reflexivity | reflexivity | |].
  - intros d Hd. apply (Forall_forall (fun d => filePath d.2 ≠ js "uploads/u1-2")
                          (resumes exampleDb)); [by_evaluation | exact Hd].
  - by exists disk'.
Defined.

Lemma letter_and_questions_are_the_reply_or_a_fixed_failure_witness :
  ∃ response log,
    Eff.run (coverLetterHandler proseReply exampleEnv exampleDb (requestOf "u1" None))
    = (inr response, log)
    ∧ (length log ≤ 1)%nat.
Proof.
  destruct (letter_and_questions_are_the_reply_or_a_fixed_failure proseReply exampleEnv
              exampleDb (requestOf "u1" None) (js "u1") (js "I use React"))
    as [(response & log & E & Hlen & _) _]; [reflexivity | done | reflexivity |].
  by exists response, log.
Defined.

Lemma array_reply_is_sent_back_and_no_reply_is_a_failure_witness :
  (Eff.run (suggestionsHandler JsonText.parse fourIdsReply exampleEnv exampleDb
              (requestOf "u1" (Some [exampleJob])))).1
  = inr (send 200 (SuggestionsBody
                     [JString (js "j7"); JString (js "j8"); JString (js "j9");
                      JString (js "j10")])).
Proof.
  destruct (array_reply_is_sent_back_and_no_reply_is_a_failure JsonText.parse fourIdsReply
              exampleEnv exampleDb (requestOf "u1" (Some [exampleJob]))
              117 (js "1") exampleJob [] (js "I use React")) as [H _];
    [reflexivity | reflexivity | reflexivity |].
  assert (GEMINI_API_KEY exampleEnv ≠ [] ∨ CANVAS_MODE exampleEnv = true) as Hkey
    by (by left).
  rewrite (H _ [JString (js "j7"); JString (js "j8"); JString (js "j9"); JString (js "j10")]
             Hkey eq_refl); [reflexivity | done | by vm_compute].
Defined.

Lemma uploaded_resume_is_ranked_with_its_score_witness :
  ∃ ranked a,
    (Eff.run (applicantsHandler toLowerCaseAscii
                (uploadHandler examplePdf exampleMammoth exampleDb
                   (exampleUpload (Some (js "u1")) "text/plain" "Node and React")).1.2
                (js "j1"))).1
      = inr (send 200 (ApplicantsBody ranked))
    ∧ a ∈ ranked ∧ userId a = js "u1" ∧ applicantScore a = 100%Z.
Proof.
  destruct (uploaded_resume_is_ranked_with_its_score toLowerCaseAscii examplePdf
              exampleMammoth exampleDb
              (exampleUpload (Some (js "u1")) "text/plain" "Node and React")
              (js "u1") (js "uploads/u1-2") (js "text/plain")
              (bytesOf "Node and React") (js "Node and React")
              {| email := js "u1@example.org"; role := js "Job Seeker" |}
              (js "j1")
              {| title := js "Developer"; company := js "Acme";
                 description := js "Web development";
                 skills := js "React, Node"; recruiterId := js "r1" |})
    as (ranked & a & Hrun & Hin & Hid & _ & Hscore & _);
    [reflexivity | done | reflexivity | by vm_compute | by vm_compute | reflexivity
    | by_evaluation |].
  exists ranked, a. split; [exact Hrun |]. split; [exact Hin |]. split; [exact Hid |].
  rewrite Hscore. by vm_compute.
Defined.

Lemma page_keeps_the_ranking_of_the_endpoint_witness :
  ∃ ranked,
    (Eff.run (applicantsHandler toLowerCaseAscii exampleDb (js "j1"))).1
      = inr (send 200 (ApplicantsBody ranked))
    ∧ map userId ranked = [js "u2"; js "u1"; js "u5"]
    ∧ sortedApplicants ranked = ranked
    ∧ map userId (filteredApplicants toLowerCaseAscii (js "U5@") (sortedApplicants ranked))
      = [js "u5"].
Proof.
  destruct (Eff.run (applicantsHandler toLowerCaseAscii exampleDb (js "j1"))).1
    as [e | [code [ | | ranked | | ]]] eqn:Hrun; try (by vm_compute in Hrun).
  assert (code = 200%Z) as -> by (vm_compute in Hrun; by injection Hrun as <- _).
  destruct (page_keeps_the_ranking_of_the_endpoint toLowerCaseAscii exampleDb (js "j1")
              ranked Hrun) as (Hsame & _ & _).
  exists ranked. split; [reflexivity |].
  vm_compute in Hrun. injection Hrun as <-.
  split; [reflexivity |]. split; [exact Hsame | by vm_compute].
Defined.

Lemma required_skills_are_the_nonempty_tags_witness :
  skillTags (js "React, , Node") = [js "React"; js ""; js "Node"]
  ∧ parseSkills toLowerCaseAscii (js "React, , Node") = [js "react"; js "node"].
Proof.
  split; [reflexivity |].
  destruct (required_skills_are_the_nonempty_tags toLowerCaseAscii (js "React, , Node")
              lowersAscii_instance eq_refl) as [-> _].
  reflexivity.
Defined.

Lemma snippet_is_bounded_witness :
  (length (getSnippet (Some (js "Web development")) 3) ≤ 3 + 3)%nat
  ∧ getSnippet (Some (js "Web development")) 3 = js "Web...".
Proof.
  destruct (snippet_is_bounded (js "Web development") 3 ltac:(done)) as (Hlen & _ & Hcut & _).
  split; [exact Hlen |]. apply Hcut. simpl. lia.
Defined.
